(** * Skylight: trajectory and animation engine of web/app.js

    A shallow embedding of the browser-side flight display: coordinate
    projection, exit-point computation, per-frame interpolation, trail
    fading and the plane registry.

    JavaScript numbers are IEEE doubles.  They are modelled here as the
    real numbers extended with the three special values of the standard
    (+Infinity, -Infinity, NaN): finite arithmetic is exact, and the
    special values propagate as in IEEE 754.  Signed zeros are identified
    (a zero divisor is read as +0). *)

From Stdlib Require Import Reals Lra Psatz Ascii.
From stdpp Require Import base option list gmap strings.

Open Scope R_scope.

(* ===================================================================== *)
(** ** JavaScript numbers *)
(* ===================================================================== *)

Module JS.

Inductive num : Type :=
| Fin (r : R)
| PInf
| NInf
| NaN.

Definition isFinite (x : num) : Prop :=
match x with Fin _ => True | _ => False end.

(** Sign of a real as seen by multiplication and division by an infinity. *)
Inductive sign := Neg | Zero | Pos.

Definition sgn (r : R) : sign :=
if Rlt_dec 0 r then Pos else if Rlt_dec r 0 then Neg else Zero.

Definition neg (x : num) : num :=
match x with
| Fin r => Fin (- r)
| PInf => NInf
| NInf => PInf
| NaN => NaN
end.

Definition add (x y : num) : num :=
match x, y with
| NaN, _ | _, NaN => NaN
| Fin a, Fin b => Fin (a + b)
| PInf, NInf | NInf, PInf => NaN
| PInf, _ | _, PInf => PInf
| NInf, _ | _, NInf => NInf
end.

Definition sub (x y : num) : num := add x (neg y).

(** An infinity of the given orientation scaled by a sign. *)
Definition inf_times (positive : bool) (s : sign) : num :=
match s, positive with
| Zero, _ => NaN
| Pos, true | Neg, false => PInf
| Pos, false | Neg, true => NInf
end.

Definition mul (x y : num) : num :=
match x, y with
| NaN, _ | _, NaN => NaN
| Fin a, Fin b => Fin (a * b)
| PInf, Fin b => inf_times true (sgn b)
| NInf, Fin b => inf_times false (sgn b)
| Fin a, PInf => inf_times true (sgn a)
| Fin a, NInf => inf_times false (sgn a)
| PInf, PInf | NInf, NInf => PInf
| PInf, NInf | NInf, PInf => NInf
end.

Definition div (x y : num) : num :=
match x, y with
| NaN, _ | _, NaN => NaN
| Fin a, Fin b =>
    if Req_dec_T b 0 then inf_times true (sgn a) else Fin (a / b)
| Fin _, (PInf | NInf) => Fin 0
| PInf, Fin b => if Rlt_dec b 0 then NInf else PInf
| NInf, Fin b => if Rlt_dec b 0 then PInf else NInf
| (PInf | NInf), (PInf | NInf) => NaN
end.

(** [x < y]; every comparison with NaN is false. *)
Definition lt (x y : num) : bool :=
match x, y with
| NaN, _ | _, NaN => false
| Fin a, Fin b => if Rlt_dec a b then true else false
| NInf, (Fin _ | PInf) => true
| Fin _, PInf => true
| _, _ => false
end.

Definition gt (x y : num) : bool := lt y x.

(** [x >= y]. *)
Definition ge (x y : num) : bool :=
match x, y with
| NaN, _ | _, NaN => false
| Fin a, Fin b => if Rle_dec b a then true else false
| PInf, _ => true
| _, NInf => true
| _, _ => false
end.

(** [Math.min] of two arguments. *)
Definition min (x y : num) : num :=
match x, y with
| NaN, _ | _, NaN => NaN
| _, _ => if lt y x then y else x
end.

Definition cos (x : num) : num :=
match x with Fin r => Fin (Rtrigo_def.cos r) | _ => NaN end.

Definition sin (x : num) : num :=
match x with Fin r => Fin (Rtrigo_def.sin r) | _ => NaN end.

Definition sqrt (x : num) : num :=
match x with
| Fin r => if Rlt_dec r 0 then NaN else Fin (R_sqrt.sqrt r)
| PInf => PInf
| NInf | NaN => NaN
end.

(** [Math.pow(x, 2)]. *)
Definition pow2 (x : num) : num := mul x x.

(** [Math.PI]. *)
Definition PI : num := Fin Rtrigo1.PI.

(** Truthiness of a number: [0] and [NaN] are falsy. *)
Definition truthy (x : num) : bool :=
match x with
| NaN => false
| Fin r => if Req_dec_T r 0 then false else true
| _ => true
end.

(** Truncation toward zero, as used by the remainder operator. *)
Definition trunc (r : R) : Z :=
if Rle_dec 0 r then Int_part r else (- Int_part (- r))%Z.

(** The remainder operator [x % y]. *)
Definition rem (x y : num) : num :=
match x, y with
| Fin a, Fin b =>
    if Req_dec_T b 0 then NaN else Fin (a - b * IZR (trunc (a / b)))
| Fin a, (PInf | NInf) => Fin a
| _, _ => NaN
end.

End JS.

Import JS.

Declare Scope js_scope.
Delimit Scope js_scope with js.
Bind Scope js_scope with num.
Infix "+" := add : js_scope.
Infix "-" := sub : js_scope.
Infix "*" := mul : js_scope.
Infix "/" := div : js_scope.
Notation "# r" := (Fin r) (at level 5, format "# r") : js_scope.

Open Scope js_scope.

Arguments add : simpl never.
Arguments sub : simpl never.
Arguments mul : simpl never.
Arguments div : simpl never.
Arguments lt : simpl never.
Arguments gt : simpl never.
Arguments ge : simpl never.
Arguments min : simpl never.
Arguments sqrt : simpl never.
Arguments pow2 : simpl never.
Arguments rem : simpl never.
Arguments truthy : simpl never.

(* ===================================================================== *)
(** ** Configuration and coordinate conversion *)
(* ===================================================================== *)

Definition ENABLE_TRAILS : bool := true.
Definition ENABLE_CURVES : bool := true.

(** [config.bounds]. *)
Record Bounds : Type := mkBounds {
  minLat : num;
  maxLat : num;
  minLon : num;
  maxLon : num
}.

(** [window.innerWidth] and [window.innerHeight]. *)
Record Window : Type := mkWindow {
  innerWidth : num;
  innerHeight : num
}.

Record Point : Type := mkPoint { x : num; y : num }.

Record LatLon : Type := mkLatLon { lat : num; lon : num }.

Definition latLonToScreen (b : Bounds) (w : Window) (lat lon : num) : Point :=
  let x := ((lon - minLon b) / (maxLon b - minLon b)) * innerWidth w in
  let y := (#1 - (lat - minLat b) / (maxLat b - minLat b)) * innerHeight w in
  {| x := x; y := y |}.

Definition screenToLatLon (b : Bounds) (w : Window) (x y : num) : LatLon :=
  let lon := (x / innerWidth w) * (maxLon b - minLon b) + minLon b in
  let lat := (#1 - y / innerHeight w) * (maxLat b - minLat b) + minLat b in
  {| lat := lat; lon := lon |}.

(* ===================================================================== *)
(** ** Exit point *)
(* ===================================================================== *)

Record Exit : Type := mkExit {
  exitLat : num;
  exitLon : num;
  distanceMeters : num
}.

(** One of the four edge tests of [calculateExitPoint]: when the guard on
    the direction component holds, the parametric distance [t] to the edge
    replaces [minT] if it is positive and smaller. *)
Definition edgeStep (guard : bool) (edge start d minT : num) : num :=
  if guard then
    let t := (edge - start) / d in
    if gt t #0 && lt t minT then t else minT
  else minT.

(** The search for the nearest edge: [minT] after the four tests. *)
Definition nearestEdgeT (b : Bounds) (startLat startLon dLat dLon : num) : num :=
  let minT := PInf in
  (* Top edge (maxLat) *)
  let minT := edgeStep (gt dLat #0) (maxLat b) startLat dLat minT in
  (* Bottom edge (minLat) *)
  let minT := edgeStep (lt dLat #0) (minLat b) startLat dLat minT in
  (* Right edge (maxLon) *)
  let minT := edgeStep (gt dLon #0) (maxLon b) startLon dLon minT in
  (* Left edge (minLon) *)
  let minT := edgeStep (lt dLon #0) (minLon b) startLon dLon minT in
  minT.

Definition calculateExitPoint (b : Bounds) (startLat startLon headingDeg : num)
  : Exit :=
  let headingRad := (headingDeg * PI) / #180 in
  let dLat := cos headingRad in
  let dLon := sin headingRad in
  let minT := nearestEdgeT b startLat startLon dLat dLon in
  let exitLat := startLat + dLat * minT in
  let exitLon := startLon + dLon * minT in
  let distanceDeg :=
    sqrt (pow2 (exitLat - startLat)
          + pow2 ((exitLon - startLon) * cos (startLat * PI / #180))) in
  let distanceMeters := distanceDeg * #111000 in
  {| exitLat := exitLat; exitLon := exitLon; distanceMeters := distanceMeters |}.

(** The body of [calculateExitPoint] once the direction vector is known
    (the edge search, the exit point and the distance), as a function of the
    components [dLat] and [dLon] it has computed.  [Math.cos] and [Math.sin]
    are modelled by the exact cosine and sine; the doubles they return can
    differ from them by a rounding residue, which changes the sign of a
    component whose exact value is 0.  What depends on the sign of a
    component is therefore stated over this function. *)
Definition exitAlong (b : Bounds) (startLat startLon dLat dLon : num) : Exit :=
  let minT := nearestEdgeT b startLat startLon dLat dLon in
  let exitLat := startLat + dLat * minT in
  let exitLon := startLon + dLon * minT in
  let distanceDeg :=
    sqrt (pow2 (exitLat - startLat)
          + pow2 ((exitLon - startLon) * cos (startLat * PI / #180))) in
  let distanceMeters := distanceDeg * #111000 in
  {| exitLat := exitLat; exitLon := exitLon; distanceMeters := distanceMeters |}.

(* ===================================================================== *)
(** ** Easing and interpolation *)
(* ===================================================================== *)

Definition linear (t : num) : num := t.

(** Quadratic bezier: P = (1-t)²P0 + 2(1-t)tP1 + t²P2 *)
Definition quadraticBezier (t p0 p1 p2 : num) : num :=
  let mt := #1 - t in
  mt * mt * p0 + #2 * mt * t * p1 + t * t * p2.

(** [Math.random] is an oracle: [rand k] is the value of the [k]-th call;
    the cursor counting the calls made so far is threaded through. *)
Definition generateCurveControl (rand : nat -> num) (k : nat)
    (startLat startLon endLat endLon heading : num) : option LatLon * nat :=
  if negb ENABLE_CURVES then (None, k) else
  if gt (rand k) #0.6 then (None, S k) else
  let midLat := (startLat + endLat) / #2 in
  let midLon := (startLon + endLon) / #2 in
  let perpRad := ((heading + #90) * PI) / #180 in
  let journeyDist :=
    sqrt (pow2 (endLat - startLat) + pow2 (endLon - startLon)) in
  let offsetMagnitude := journeyDist * (#0.1 + rand (S k) * #0.15) in
  let offsetSign := if gt (rand (S (S k))) #0.5 then #1 else #(-1) in
  let controlLat := midLat + cos perpRad * offsetMagnitude * offsetSign in
  let controlLon := midLon + sin perpRad * offsetMagnitude * offsetSign in
  (Some {| lat := controlLat; lon := controlLon |}, S (S (S k))).

(* ===================================================================== *)
(** ** Feed samples and plane state *)
(* ===================================================================== *)

(** One element of [data.planes] in flights.json.  A field that may be
    absent (or null) in the feed is an [option]. *)
Module PlaneData.
Record t : Type := mk {
  id : string;
  callsign : string;
  country : string;
  position : option LatLon;
  heading : num;
  velocity_mps : option num;
  color : string
}.
End PlaneData.

(** The per-plane state object stored in the [planes] map. *)
Module Plane.
Record state : Type := mk {
  id : string;
  callsign : string;
  country : string;
  heading : num;
  color : string;
  (* Trajectory *)
  startLat : num;
  startLon : num;
  endLat : num;
  endLon : num;
  curveControl : option LatLon;
  (* Timing *)
  startTime : num;
  duration : num;
  (* Current position *)
  lat : num;
  lon : num;
  screenPos : Point;
  startScreenPos : Point;
  progress : num;
  (* Trail history *)
  trailPoints : list Point;
  lastTrailProgress : num
}.

(** [state.callsign = c; state.country = k]. *)
Definition setLabel (c k : string) (s : state) : state :=
  mk (id s) c k (heading s) (color s)
     (startLat s) (startLon s) (endLat s) (endLon s) (curveControl s)
     (startTime s) (duration s)
     (lat s) (lon s) (screenPos s) (startScreenPos s) (progress s)
     (trailPoints s) (lastTrailProgress s).

(** The fields written by one pass of the animation loop. *)
Definition setMotion (p la lo h : num) (sp : Point)
    (tp : list Point) (ltp : num) (s : state) : state :=
  mk (id s) (callsign s) (country s) h (color s)
     (startLat s) (startLon s) (endLat s) (endLon s) (curveControl s)
     (startTime s) (duration s)
     la lo sp (startScreenPos s) p
     tp ltp.
End Plane.

(** [x || d] on an optional number. *)
Definition orDefault (v : option num) (d : num) : num :=
  match v with
  | Some n => if truthy n then n else d
  | None => d
  end.

(* ===================================================================== *)
(** ** Trails *)
(* ===================================================================== *)

(** [fadeProgress]: 0 at 60%, 1 at 100%. *)
Definition fadeProgress (progress : num) : num :=
  if gt progress #0.6 then (progress - #0.6) / #0.4 else #0.

(** Where the visible trail starts, for the stored progress of a plane. *)
Definition trailStartProgress (stored : num) : num :=
  let progress := if truthy stored then stored else #0 in
  fadeProgress progress * progress.

(** Position on the planned path at parameter [t]. *)
Definition pathAt (s : Plane.state) (t : num) : LatLon :=
  match Plane.curveControl s with
  | Some c =>
      {| lat := quadraticBezier t (Plane.startLat s) (lat c) (Plane.endLat s);
         lon := quadraticBezier t (Plane.startLon s) (lon c) (Plane.endLon s) |}
  | None =>
      {| lat := Plane.startLat s + (Plane.endLat s - Plane.startLat s) * t;
         lon := Plane.startLon s + (Plane.endLon s - Plane.startLon s) * t |}
  end.

(** What [drawTrails] strokes for one plane: the polyline and the two ends
    of its gradient (transparent at [gradFrom], most visible at [gradTo]). *)
Record Stroke : Type := mkStroke {
  polyline : list Point;
  gradFrom : Point;
  gradTo : Point
}.

Definition trailOf (b : Bounds) (w : Window) (s : Plane.state) : Stroke :=
  let progress := if truthy (Plane.progress s) then Plane.progress s else #0 in
  let tsp := trailStartProgress (Plane.progress s) in
  let ts := pathAt s tsp in
  let trailStart := latLonToScreen b w (lat ts) (lon ts) in
  let rest :=
    match Plane.curveControl s with
    | Some _ =>
        let segments := #4 in
        map (fun i : Z =>
               let t := tsp + (progress - tsp) * (#(IZR i) / segments) in
               let p := pathAt s t in
               latLonToScreen b w (lat p) (lon p))
            [1; 2; 3; 4]%Z
    | None => [Plane.screenPos s]
    end in
  {| polyline := trailStart :: rest;
     gradFrom := trailStart;
     gradTo := Plane.screenPos s |}.

Definition drawTrails (b : Bounds) (w : Window)
    (planes : gmap string Plane.state) : gmap string Stroke :=
  trailOf b w <$> planes.

(* ===================================================================== *)
(** ** Animation loop *)
(* ===================================================================== *)

(** [Math.atan2(y, x)]. *)
Definition atan2 (y x : num) : num :=
  let pi := Rtrigo1.PI in
  match y, x with
  | NaN, _ | _, NaN => NaN
  | Fin b, Fin a =>
      match sgn a, sgn b with
      | Pos, _ => Fin (atan (b / a))
      | Neg, Neg => Fin (atan (b / a) - pi)
      | Neg, _ => Fin (atan (b / a) + pi)
      | Zero, Pos => Fin (pi / 2)
      | Zero, Neg => Fin (- pi / 2)
      | Zero, Zero => Fin 0
      end
  | Fin b, PInf => Fin 0
  | Fin b, NInf => if Rlt_dec b 0 then Fin (- pi) else Fin pi
  | PInf, Fin _ => Fin (pi / 2)
  | NInf, Fin _ => Fin (- pi / 2)
  | PInf, PInf => Fin (pi / 4)
  | PInf, NInf => Fin (3 * pi / 4)
  | NInf, PInf => Fin (- pi / 4)
  | NInf, NInf => Fin (- 3 * pi / 4)
  end.

Definition TARGET_FPS : num := #30.
Definition FRAME_INTERVAL : num := #1000 / TARGET_FPS.

(** The module-level state of the page.  The overlay is [Some message]
    while visible.  [randCalls] and [clockCalls] count the calls made so far
    to [Math.random] and [performance.now]. *)
Record Engine : Type := mkEngine {
  planes : gmap string Plane.state;
  isConnected : bool;
  overlay : option string;
  lastAnimateTime : num;
  randCalls : nat;
  clockCalls : nat
}.

(** [progress = Math.min(elapsed / state.duration, 1)]. *)
Definition progressAt (currentTime : num) (s : Plane.state) : num :=
  let elapsed := currentTime - Plane.startTime s in
  min (elapsed / Plane.duration s) #1.

(** The body of the loop over [planes] in [animate], for one plane.  The
    plane's DOM element is created or updated from the resulting state; the
    stored [startScreenPos] is an object, hence never replaced. *)
Definition advance (b : Bounds) (w : Window) (currentTime : num)
    (s : Plane.state) : Plane.state :=
  let progress := progressAt currentTime s in
  let easedProgress := linear progress in
  let pos := pathAt s easedProgress in
  let heading :=
    match Plane.curveControl s with
    | Some _ =>
        let dt := #0.01 in
        let nextT := min (easedProgress + dt) #1 in
        let next := pathAt s nextT in
        atan2 (lon next - lon pos) (lat next - lat pos) * #180 / PI
    | None => Plane.heading s
    end in
  let screenPos := latLonToScreen b w (lat pos) (lon pos) in
  let '(trailPoints, lastTrailProgress) :=
    if (length (Plane.trailPoints s) =? 0)%nat
       || gt (progress - Plane.lastTrailProgress s) #0.02
    then
      let pushed := Plane.trailPoints s ++ [screenPos] in
      (if (50 <? length pushed)%nat then tail pushed else pushed, progress)
    else (Plane.trailPoints s, Plane.lastTrailProgress s) in
  Plane.setMotion progress (lat pos) (lon pos) heading screenPos
    trailPoints lastTrailProgress s.

(** Ids marked for removal: those whose journey is complete. *)
Definition toRemove (ps : gmap string Plane.state) : list string :=
  (filter (λ kv, ge (Plane.progress kv.2) #1 = true) (map_to_list ps)).*1.

Definition removeAll (ids : list string) (ps : gmap string Plane.state)
  : gmap string Plane.state :=
  foldl (λ m id, delete id m) ps ids.

(** One invocation of [animate] by the frame callback. *)
Definition animate (b : Bounds) (w : Window) (currentTime : num) (e : Engine)
  : Engine :=
  let elapsed := currentTime - lastAnimateTime e in
  if lt elapsed FRAME_INTERVAL then e
  else
    let last := currentTime - rem elapsed FRAME_INTERVAL in
    let moved := advance b w currentTime <$> planes e in
    let kept := removeAll (toRemove moved) moved in
    {| planes := kept;
       isConnected := isConnected e;
       overlay := overlay e;
       lastAnimateTime := last;
       randCalls := randCalls e;
       clockCalls := clockCalls e |}.

(* ===================================================================== *)
(** ** Reconciling the feed *)
(* ===================================================================== *)

(** The outside world as seen by [fetchFlightData]: the values returned by
    successive calls of [Math.random] and of [performance.now]. *)
Record Oracle : Type := mkOracle {
  random : nat -> num;
  now : nat -> num
}.

(** What the request for flights.json came back with. *)
Inductive Response : Type :=
| FetchFailed                          (* rejected, not ok, or not JSON *)
| StatusError                          (* data.status === 'error' *)
| Planes (l : list PlaneData.t).

Definition withPlanes (ps : gmap string Plane.state) (rc cc : nat)
    (e : Engine) : Engine :=
  {| planes := ps;
     isConnected := isConnected e;
     overlay := overlay e;
     lastAnimateTime := lastAnimateTime e;
     randCalls := rc;
     clockCalls := cc |}.

Definition withConnection (c : bool) (o : option string) (e : Engine)
  : Engine :=
  {| planes := planes e;
     isConnected := c;
     overlay := o;
     lastAnimateTime := lastAnimateTime e;
     randCalls := randCalls e;
     clockCalls := clockCalls e |}.

(** The state object built for a plane seen for the first time. *)
Definition newPlane (o : Oracle) (b : Bounds) (w : Window) (e : Engine)
    (planeData : PlaneData.t) (position : LatLon) : Plane.state * nat :=
  let startLat := lat position in
  let startLon := lon position in
  let heading := PlaneData.heading planeData in
  let velocityMps := orDefault (PlaneData.velocity_mps planeData) #200 in
  let exit := calculateExitPoint b startLat startLon heading in
  let speedMultiplier := #3 in
  let durationMs :=
    (distanceMeters exit / velocityMps / speedMultiplier) * #1000 in
  let '(curveControl, rc) :=
    generateCurveControl (random o) (randCalls e)
      startLat startLon (exitLat exit) (exitLon exit) heading in
  let startScreenPos := latLonToScreen b w startLat startLon in
  (Plane.mk (PlaneData.id planeData) (PlaneData.callsign planeData)
     (PlaneData.country planeData) heading (PlaneData.color planeData)
     startLat startLon (exitLat exit) (exitLon exit) curveControl
     (now o (clockCalls e)) durationMs
     startLat startLon startScreenPos startScreenPos #0
     [startScreenPos] #0,
   rc).

(** The body of the loop over [data.planes].  [None] stands for the
    TypeError raised on reading [planeData.position.lat] when the sample
    has no position. *)
Definition processPlane (o : Oracle) (b : Bounds) (w : Window) (e : Engine)
    (planeData : PlaneData.t) : option Engine :=
  let id := PlaneData.id planeData in
  match planes e !! id with
  | Some state =>
      let state' :=
        Plane.setLabel (PlaneData.callsign planeData)
          (PlaneData.country planeData) state in
      Some (withPlanes (<[id := state']> (planes e))
              (randCalls e) (clockCalls e) e)
  | None =>
      match PlaneData.position planeData with
      | None => None
      | Some position =>
          let '(state, rc) := newPlane o b w e planeData position in
          Some (withPlanes (<[id := state]> (planes e))
                  rc (S (clockCalls e)) e)
      end
  end.

(** The loop itself: the engine after the last sample processed, and
    whether the loop was left by an exception. *)
Fixpoint processPlanes (o : Oracle) (b : Bounds) (w : Window) (e : Engine)
    (l : list PlaneData.t) : Engine * bool :=
  match l with
  | [] => (e, false)
  | planeData :: rest =>
      match processPlane o b w e planeData with
      | Some e' => processPlanes o b w e' rest
      | None => (e, true)
      end
  end.

(** The [catch] block. *)
Definition onFetchError (e : Engine) : Engine :=
  if isConnected e then withConnection false (Some "Reconnecting..."%string) e
  else e.

Definition fetchFlightData (o : Oracle) (b : Bounds) (w : Window)
    (r : Response) (e : Engine) : Engine :=
  match r with
  | FetchFailed => onFetchError e
  | StatusError =>
      if isConnected e
      then withConnection false
             (Some "Connection lost. Reconnecting..."%string) e
      else e
  | Planes l =>
      let e := if isConnected e then e else withConnection true None e in
      let '(e, threw) := processPlanes o b w e l in
      if threw then onFetchError e else e
  end.

(* ===================================================================== *)
(** ** Easing, colours and the page *)
(* ===================================================================== *)

(** Smooth ease-in-out: [-(Math.cos(Math.PI * t) - 1) / 2]. *)
Definition easeInOutSine (t : num) : num :=
  neg (cos (PI * t) - #1) / #2.

(** The object returned by [hexToRgb]. *)
Module Rgb.
Record t : Type := mk { r : Z; g : Z; b : Z }.
End Rgb.

(** Value of a character of the class [[a-f\d]] under the [i] flag. *)
Definition hexDigit (c : ascii) : option Z :=
  let n := Z.of_N (N_of_ascii c) in
  if ((48 <=? n) && (n <=? 57))%Z then Some (n - 48)%Z
  else if ((97 <=? n) && (n <=? 102))%Z then Some (n - 87)%Z
  else if ((65 <=? n) && (n <=? 70))%Z then Some (n - 55)%Z
  else None.

(** [parseInt] in base 16 of a captured group of two hex digits. *)
Definition parseHexPair (c1 c2 : ascii) : option Z :=
  match hexDigit c1, hexDigit c2 with
  | Some hi, Some lo => Some (16 * hi + lo)%Z
  | _, _ => None
  end.

(** The optional leading [#] of the regular expression. *)
Definition stripHash (hex : string) : string :=
  match hex with
  | String "#"%char rest => rest
  | _ => hex
  end.

(** The regular expression [/^#?([a-f\d]{2})([a-f\d]{2})([a-f\d]{2})$/i]:
    an optional leading [#], then exactly six hex digits, captured in three
    groups of two. *)
Definition execHex (hex : string) : option (Z * Z * Z) :=
  match stripHash hex with
  | String c1 (String c2 (String c3 (String c4 (String c5
      (String c6 EmptyString))))) =>
      match parseHexPair c1 c2, parseHexPair c3 c4, parseHexPair c5 c6 with
      | Some r, Some g, Some b => Some (r, g, b)
      | _, _, _ => None
      end
  | _ => None
  end.

Definition hexToRgb (hex : string) : Rgb.t :=
  match execHex hex with
  | Some (r, g, b) => Rgb.mk r g b
  | None => Rgb.mk 255 255 255
  end.

(** What the page shows of the planes: the ids for which a [plane-<id>]
    element is attached to the container, and the text of the counter. *)
Record Page : Type := mkPage {
  planeElements : gset string;
  countText : nat
}.

(** The effect on the page of one invocation of [animate]: an element is
    created for every plane of the loop that has none, the elements of the
    completed planes are removed, and the counter shows [planes.size]. *)
Definition animatePage (b : Bounds) (w : Window) (currentTime : num)
    (e : Engine) (pg : Page) : Page :=
  let elapsed := currentTime - lastAnimateTime e in
  if lt elapsed FRAME_INTERVAL then pg
  else
    let moved := advance b w currentTime <$> planes e in
    let ids := toRemove moved in
    {| planeElements :=
         foldl (λ els id, els ∖ {[id]}) (planeElements pg ∪ dom (planes e)) ids;
       countText := size (removeAll ids moved) |}.

(** The state of the page and of the engine when [main] starts polling:
    the overlay reads "Connecting..." and nothing is tracked. *)
Definition initialEngine : Engine :=
  {| planes := ∅;
     isConnected := false;
     overlay := Some "Connecting..."%string;
     lastAnimateTime := #0;
     randCalls := 0;
     clockCalls := 0 |}.

(* ===================================================================== *)
(** ** Vocabulary of the statements *)
(* ===================================================================== *)

(** The heading in radians and its components, as real numbers. *)
Definition radians (deg : R) : R := (deg * Rtrigo1.PI / 180)%R.
Definition north (headingDeg : R) : R := Rtrigo_def.cos (radians headingDeg).
Definition east (headingDeg : R) : R := Rtrigo_def.sin (radians headingDeg).

(** The equirectangular distance of [calculateExitPoint], in degrees. *)
Definition distanceDegR (sLat sLon eLat eLon : R) : R :=
  R_sqrt.sqrt
    ((eLat - sLat) * (eLat - sLat)
     + (eLon - sLon) * Rtrigo_def.cos (radians sLat)
       * ((eLon - sLon) * Rtrigo_def.cos (radians sLat))).

(** What the search returns for a start strictly inside the region and a
    direction that is not the null vector: a positive time [t] at which the
    ray is still within the closed region and on one of its edges. *)
Definition firstHit (mnLat mxLat mnLon mxLon sLat sLon dLat dLon t : R) : Prop :=
  (0 < t)%R
  /\ (mnLat <= sLat + dLat * t <= mxLat)%R
  /\ (mnLon <= sLon + dLon * t <= mxLon)%R
  /\ ((sLat + dLat * t = mxLat)%R \/ (sLat + dLat * t = mnLat)%R
      \/ (sLon + dLon * t = mxLon)%R \/ (sLon + dLon * t = mnLon)%R).

(** An edge is crossed in the forward direction when the test for it is
    entered (the direction component has the sign of that edge) and the
    parametric distance to it is positive. *)
Definition crossedForward (towardsMax : bool) (edge start d : R) : Prop :=
  (if towardsMax then 0 < d else d < 0)%R /\ (0 < (edge - start) / d)%R.

Definition noForwardIntersection
    (mnLat mxLat mnLon mxLon sLat sLon dLat dLon : R) : Prop :=
  ~ crossedForward true mxLat sLat dLat
  /\ ~ crossedForward false mnLat sLat dLat
  /\ ~ crossedForward true mxLon sLon dLon
  /\ ~ crossedForward false mnLon sLon dLon.

(** A plane whose planned path has finite coordinates: start [(a, b)],
    exit [(c, d)] and, when the path is curved, a finite control point. *)
Record finitePath (s : Plane.state) (a b c d : R) : Prop := {
  fp_startLat : Plane.startLat s = #a;
  fp_startLon : Plane.startLon s = #b;
  fp_endLat : Plane.endLat s = #c;
  fp_endLon : Plane.endLon s = #d;
  fp_control :
    match Plane.curveControl s with
    | Some cp => isFinite (lat cp) /\ isFinite (lon cp)
    | None => True
    end
}.

(** The planned journey of a plane: geometry and timing. *)
Definition sameJourney (s s' : Plane.state) : Prop :=
  Plane.startLat s' = Plane.startLat s
  /\ Plane.startLon s' = Plane.startLon s
  /\ Plane.endLat s' = Plane.endLat s
  /\ Plane.endLon s' = Plane.endLon s
  /\ Plane.curveControl s' = Plane.curveControl s
  /\ Plane.startTime s' = Plane.startTime s
  /\ Plane.duration s' = Plane.duration s.

(** Every tracked plane keeps between 1 and 50 points of trail history. *)
Definition trailBounded (ps : gmap string Plane.state) : Prop :=
  map_Forall
    (λ _ s, (1 <= length (Plane.trailPoints s) <= 50)%nat) ps.

(** Every plane is stored under its own id. *)
Definition keyedById (ps : gmap string Plane.state) : Prop :=
  map_Forall (λ i s, Plane.id s = i) ps.

(** The overlay is hidden exactly while the feed is connected. *)
Definition overlayTracksConnection (e : Engine) : Prop :=
  isConnected e = true <-> overlay e = None.

(** A sample that carries a position. *)
Definition hasPosition (pd : PlaneData.t) : Prop :=
  PlaneData.position pd <> None.

(** The lower-case hex digit of a value below 16, and the two-digit
    spelling of a colour component. *)
Definition hexChar (d : Z) : ascii :=
  ascii_of_N (Z.to_N (if (d <? 10)%Z then d + 48 else d + 87)%Z).

Definition hexPair (n : Z) : string :=
  String (hexChar (n / 16)) (String (hexChar (n mod 16)) EmptyString).

(* ===================================================================== *)
(** ** Sample data *)
(* ===================================================================== *)

Definition demoBounds : Bounds := mkBounds #51 #52 #(-1) #1.
Definition demoWindow : Window := mkWindow #800 #480.

(** Every random draw is 0.9 (hence straight paths), the clock reads 0. *)
Definition demoOracle : Oracle := mkOracle (fun _ => #0.9) (fun _ => #0).

(** A plane flying due east along a straight path, for one second. *)
Definition demoPlane : Plane.state :=
  let at_start := latLonToScreen demoBounds demoWindow #51.5 #0 in
  Plane.mk "4ca7b1" "RYR22AB" "Ireland" #90 "#ff6b6b"
    #51.5 #0 #51.5 #1 None
    #0 #1000
    #51.5 #0 at_start at_start #0
    [at_start] #0.

(** A plane on a curved path bending north of the straight line. *)
Definition demoCurved : Plane.state :=
  let at_start := latLonToScreen demoBounds demoWindow #51.5 #0 in
  Plane.mk "c0ffee" "DLH4AB" "Germany" #90 "#45b7d1"
    #51.5 #0 #51.5 #1 (Some {| lat := #51.7; lon := #0.5 |})
    #0 #1000
    #51.5 #0 at_start at_start #0
    [at_start] #0.

Definition demoEngine : Engine :=
  {| planes := {[ "4ca7b1"%string := demoPlane ]};
     isConnected := true;
     overlay := None;
     lastAnimateTime := #0;
     randCalls := 0;
     clockCalls := 0 |}.

Definition emptyEngine : Engine :=
  {| planes := ∅;
     isConnected := true;
     overlay := None;
     lastAnimateTime := #0;
     randCalls := 0;
     clockCalls := 0 |}.

(** A later sample of the tracked plane, with another position and label. *)
Definition demoUpdate : PlaneData.t :=
  PlaneData.mk "4ca7b1" "RYR22" "Ireland"
    (Some {| lat := #51.6; lon := #0.3 |}) #75 (Some #230) "#4ecdc4".

(** A first sample of a plane reporting no speed. *)
Definition demoStalled : PlaneData.t :=
  PlaneData.mk "a1b2c3" "" "Unknown"
    (Some {| lat := #51.5; lon := #0 |}) #90 None "#ff6b6b".

(* ===================================================================== *)
(** * Properties *)
(* ===================================================================== *)

(** ** Arithmetic on finite numbers *)

Section FiniteArithmetic.
Implicit Types a b : R.

Lemma add_fin a b : #a + #b = #(a + b).
Proof. reflexivity. Qed.

Lemma sub_fin a b : #a - #b = #(a - b).
Proof. reflexivity. Qed.

Lemma mul_fin a b : #a * #b = #(a * b).
Proof. reflexivity. Qed.

Lemma div_fin a b : b <> 0%R -> #a / #b = #(a / b).
Proof. intros Hb. unfold div. destruct (Req_dec_T b 0); [contradiction | reflexivity]. Qed.

Lemma lt_fin_true a b : (a < b)%R -> lt #a #b = true.
Proof. intros H. unfold lt. destruct (Rlt_dec a b); [reflexivity | contradiction]. Qed.

Lemma lt_fin_false a b : (b <= a)%R -> lt #a #b = false.
Proof. intros H. unfold lt. destruct (Rlt_dec a b); [lra | reflexivity]. Qed.

Lemma lt_fin_iff a b : lt #a #b = true <-> (a < b)%R.
Proof. unfold lt. destruct (Rlt_dec a b); split; intros; try easy. Qed.

Lemma gt_fin_true a b : (b < a)%R -> gt #a #b = true.
Proof. apply lt_fin_true. Qed.

Lemma gt_fin_false a b : (a <= b)%R -> gt #a #b = false.
Proof. apply lt_fin_false. Qed.

Lemma ge_fin_iff a b : ge #a #b = true <-> (b <= a)%R.
Proof. unfold ge. destruct (Rle_dec b a); split; intros; try easy. Qed.

Lemma min_fin a b : min #a #b = #(Rmin a b).
Proof.
  unfold min, lt, Rmin.
  destruct (Rlt_dec b a), (Rle_dec a b); try reflexivity; lra.
Qed.

Lemma sqrt_fin a : (0 <= a)%R -> sqrt #a = #(R_sqrt.sqrt a).
Proof. intros H. unfold sqrt. destruct (Rlt_dec a 0); [lra | reflexivity]. Qed.

Lemma pow2_fin a : pow2 #a = #(a * a).
Proof. reflexivity. Qed.

Lemma truthy_fin a : a <> 0%R -> truthy #a = true.
Proof. intros H. unfold truthy. destruct (Req_dec_T a 0); [contradiction | reflexivity]. Qed.

Lemma sgn_pos a : (0 < a)%R -> sgn a = Pos.
Proof. intros H. unfold sgn. destruct (Rlt_dec 0 a); [reflexivity | contradiction]. Qed.

Lemma sgn_neg a : (a < 0)%R -> sgn a = Neg.
Proof.
  intros H. unfold sgn. destruct (Rlt_dec 0 a); [lra |].
  destruct (Rlt_dec a 0); [reflexivity | contradiction].
Qed.

Lemma sgn_zero : sgn 0 = Zero.
Proof.
  unfold sgn. destruct (Rlt_dec 0 0); [lra |]. destruct (Rlt_dec 0 0); [lra | reflexivity].
Qed.
End FiniteArithmetic.

(** Rewriting a finite expression to its value, leaving the side conditions
    on divisors to [lra]. *)
Ltac fin_eval :=
  repeat first
    [ rewrite add_fin | rewrite sub_fin | rewrite mul_fin | rewrite pow2_fin
    | rewrite min_fin | rewrite div_fin by lra ].

(** ** Projection *)

Section Projection.
Variables mnLat mxLat mnLon mxLon W H : R.
Hypothesis lat_span : (mnLat < mxLat)%R.
Hypothesis lon_span : (mnLon < mxLon)%R.
Hypothesis width_pos : (0 < W)%R.
Hypothesis height_pos : (0 < H)%R.

Let b := mkBounds #mnLat #mxLat #mnLon #mxLon.
Let w := mkWindow #W #H.

Lemma latLonToScreen_fin (la lo : R) :
  latLonToScreen b w #la #lo =
  {| x := #((lo - mnLon) / (mxLon - mnLon) * W);
     y := #((1 - (la - mnLat) / (mxLat - mnLat)) * H) |}.
Proof. unfold latLonToScreen; simpl. fin_eval. reflexivity. Qed.

Lemma screenToLatLon_fin (px py : R) :
  screenToLatLon b w #px #py =
  {| lat := #((1 - py / H) * (mxLat - mnLat) + mnLat);
     lon := #(px / W * (mxLon - mnLon) + mnLon) |}.
Proof. unfold screenToLatLon; simpl. fin_eval. reflexivity. Qed.

Lemma toGeo_toScreen (la lo : R) :
  let p := latLonToScreen b w #la #lo in
  screenToLatLon b w (x p) (y p) = {| lat := #la; lon := #lo |}.
Proof.
  rewrite latLonToScreen_fin; simpl. rewrite screenToLatLon_fin.
  f_equal; f_equal; field; lra.
Qed.

Lemma toScreen_toGeo (px py : R) :
  let g := screenToLatLon b w #px #py in
  latLonToScreen b w (lat g) (lon g) = {| x := #px; y := #py |}.
Proof.
  rewrite screenToLatLon_fin; simpl. rewrite latLonToScreen_fin.
  f_equal; f_equal; field; lra.
Qed.
End Projection.

(** ** Interpolation along the planned path *)

Section Interpolation.

Lemma quadraticBezier_fin (t p0 p1 p2 : R) :
  quadraticBezier #t #p0 #p1 #p2 =
  #((1 - t) * (1 - t) * p0 + 2 * (1 - t) * t * p1 + t * t * p2).
Proof. unfold quadraticBezier. fin_eval. reflexivity. Qed.

Lemma quadraticBezier_0 (p0 p1 p2 : R) : quadraticBezier #0 #p0 #p1 #p2 = #p0.
Proof. rewrite quadraticBezier_fin. f_equal. ring. Qed.

Lemma quadraticBezier_1 (p0 p1 p2 : R) : quadraticBezier #1 #p0 #p1 #p2 = #p2.
Proof. rewrite quadraticBezier_fin. f_equal. ring. Qed.

Lemma lerp_fin (a c t : R) : #a + (#c - #a) * #t = #(a + (c - a) * t).
Proof. fin_eval. reflexivity. Qed.
End Interpolation.

Lemma pathAt_start s a b c d :
  finitePath s a b c d -> pathAt s #0 = {| lat := #a; lon := #b |}.
Proof.
  intros [Ha Hb Hc Hd Hcp]. unfold pathAt.
  destruct (Plane.curveControl s) as [[[u| | |] [v| | |]]|]; simpl in Hcp;
    try tauto; rewrite Ha, Hb, Hc, Hd; simpl.
  - now rewrite !quadraticBezier_0.
  - rewrite !lerp_fin. f_equal; f_equal; ring.
Qed.

Lemma pathAt_end s a b c d :
  finitePath s a b c d -> pathAt s #1 = {| lat := #c; lon := #d |}.
Proof.
  intros [Ha Hb Hc Hd Hcp]. unfold pathAt.
  destruct (Plane.curveControl s) as [[[u| | |] [v| | |]]|]; simpl in Hcp;
    try tauto; rewrite Ha, Hb, Hc, Hd; simpl.
  - now rewrite !quadraticBezier_1.
  - rewrite !lerp_fin. f_equal; f_equal; ring.
Qed.

Lemma pathAt_straight_half s a b c d :
  finitePath s a b c d -> Plane.curveControl s = None ->
  pathAt s #0.5 = {| lat := #((a + c) / 2); lon := #((b + d) / 2) |}.
Proof.
  intros [Ha Hb Hc Hd _] Hcc. unfold pathAt. rewrite Hcc, Ha, Hb, Hc, Hd.
  rewrite !lerp_fin. f_equal; f_equal; lra.
Qed.

(** The position stored by [animate] is the point of the path at the
    progress computed in that pass. *)
Lemma advance_position bnd w currentTime s :
  let s' := advance bnd w currentTime s in
  Plane.progress s' = progressAt currentTime s
  /\ {| lat := Plane.lat s'; lon := Plane.lon s' |}
     = pathAt s (progressAt currentTime s).
Proof.
  unfold advance, linear.
  destruct (_ || _); simpl; split; try reflexivity;
    now destruct (pathAt s (progressAt currentTime s)).
Qed.

(** [animate] leaves the trajectory and its timing as planned. *)
Lemma advance_trajectory bnd w currentTime s :
  let s' := advance bnd w currentTime s in
  Plane.id s' = Plane.id s
  /\ Plane.startLat s' = Plane.startLat s
  /\ Plane.startLon s' = Plane.startLon s
  /\ Plane.endLat s' = Plane.endLat s
  /\ Plane.endLon s' = Plane.endLon s
  /\ Plane.curveControl s' = Plane.curveControl s
  /\ Plane.startTime s' = Plane.startTime s
  /\ Plane.duration s' = Plane.duration s.
Proof. unfold advance. destruct (_ || _); simpl; repeat split. Qed.

(** ** Progress *)

Lemma progressAt_fin s (t t0 d : R) :
  Plane.startTime s = #t0 -> Plane.duration s = #d -> (0 < d)%R ->
  progressAt #t s = #(Rmin ((t - t0) / d) 1).
Proof.
  intros Ht Hd Hpos. unfold progressAt. rewrite Ht, Hd. fin_eval. reflexivity.
Qed.

(** A computed progress passes the completion test exactly when it is 1. *)
Lemma min_one_complete (v : num) : ge (min v #1) #1 = true <-> min v #1 = #1.
Proof.
  destruct v as [r| | |].
  - rewrite min_fin, ge_fin_iff. split.
    + intros Hle. f_equal. apply Rle_antisym; [apply Rmin_r | exact Hle].
    + intros Heq. injection Heq as ->. lra.
  - cbv [min lt]. rewrite ge_fin_iff. split; [reflexivity | lra].
  - cbv [min lt ge]. split; discriminate.
  - cbv [min ge]. split; discriminate.
Qed.

(** ** Exit point: the search for the nearest edge *)

Section EdgeSearch.

(** An edge test that is skipped or whose distance is not positive
    leaves [minT] as it is. *)
Lemma edgeStep_skip edge start d minT : edgeStep false edge start d minT = minT.
Proof. reflexivity. Qed.

Lemma edgeStep_behind (e s d : R) minT :
  d <> 0%R -> ((e - s) / d <= 0)%R -> edgeStep true #e #s #d minT = minT.
Proof.
  intros Hd Ht. unfold edgeStep. fin_eval.
  now rewrite gt_fin_false.
Qed.

(** A positive distance replaces an infinite [minT], and competes with a
    finite one. *)
Lemma edgeStep_first (e s d : R) :
  d <> 0%R -> (0 < (e - s) / d)%R ->
  edgeStep true #e #s #d PInf = #((e - s) / d).
Proof.
  intros Hd Ht. unfold edgeStep. fin_eval.
  now rewrite gt_fin_true.
Qed.

Lemma edgeStep_next (e s d m : R) :
  d <> 0%R -> (0 < (e - s) / d)%R ->
  edgeStep true #e #s #d #m = #(Rmin m ((e - s) / d)).
Proof.
  intros Hd Ht. unfold edgeStep. fin_eval.
  rewrite gt_fin_true by exact Ht. simpl.
  unfold lt, Rmin.
  destruct (Rlt_dec ((e - s) / d) m), (Rle_dec m ((e - s) / d));
    try reflexivity; lra.
Qed.

(** Distance to an edge lying ahead is positive. *)
Lemma ahead_pos (e s d : R) :
  (0 < d /\ s < e \/ d < 0 /\ e < s)%R -> (0 < (e - s) / d)%R.
Proof.
  intros [[Hd He] | [Hd He]].
  - apply Rdiv_lt_0_compat; lra.
  - replace ((e - s) / d)%R with ((s - e) / (- d))%R by (field; lra).
    apply Rdiv_lt_0_compat; lra.
Qed.

Lemma reach_edge (e s d : R) : d <> 0%R -> (s + d * ((e - s) / d) = e)%R.
Proof. intros. field. assumption. Qed.

(** Moving for a time [t] no longer than the distance to the edge ahead
    stays on the near side of that edge. *)
Lemma before_edge_up (e s d t : R) :
  (0 < d)%R -> (0 <= t <= (e - s) / d)%R -> (s <= s + d * t <= e)%R.
Proof.
  intros Hd [H0 Ht]. pose proof (reach_edge e s d ltac:(lra)) as Hr.
  split; nra.
Qed.

Lemma before_edge_down (e s d t : R) :
  (d < 0)%R -> (0 <= t <= (e - s) / d)%R -> (e <= s + d * t <= s)%R.
Proof.
  intros Hd [H0 Ht]. pose proof (reach_edge e s d ltac:(lra)) as Hr.
  split; nra.
Qed.

End EdgeSearch.

Section ExitInside.
Variables mnLat mxLat mnLon mxLon sLat sLon : R.
Hypothesis lat_inside : (mnLat < sLat < mxLat)%R.
Hypothesis lon_inside : (mnLon < sLon < mxLon)%R.

Let b := mkBounds #mnLat #mxLat #mnLon #mxLon.

(** Guards of the two edge tests of one axis, by sign of the component. *)
Lemma guards_pos (d : R) : (0 < d)%R -> gt #d #0 = true /\ lt #d #0 = false.
Proof. intros; split; [apply gt_fin_true | apply lt_fin_false]; lra. Qed.

Lemma guards_neg (d : R) : (d < 0)%R -> gt #d #0 = false /\ lt #d #0 = true.
Proof. intros; split; [apply gt_fin_false | apply lt_fin_true]; lra. Qed.

Lemma guards_zero : gt #0 #0 = false /\ lt #0 #0 = false.
Proof. split; [apply gt_fin_false | apply lt_fin_false]; lra. Qed.

Lemma nearestEdgeT_inside (dLat dLon : R) :
  dLat <> 0%R \/ dLon <> 0%R ->
  exists t, nearestEdgeT b #sLat #sLon #dLat #dLon = #t
            /\ firstHit mnLat mxLat mnLon mxLon sLat sLon dLat dLon t.
Proof.
  intros Hdir. unfold nearestEdgeT, firstHit; simpl.
  destruct (Rtotal_order dLat 0) as [Ha | [Ha | Ha]];
  destruct (Rtotal_order dLon 0) as [Ho | [Ho | Ho]];
    try (subst; lra).
  all: first [ destruct (guards_neg dLat Ha) as [-> ->]
             | destruct (guards_pos dLat Ha) as [-> ->]
             | (subst dLat; destruct guards_zero as [-> ->]) ].
  all: first [ destruct (guards_neg dLon Ho) as [-> ->]
             | destruct (guards_pos dLon Ho) as [-> ->]
             | (subst dLon; destruct guards_zero as [-> ->]) ].
  all: rewrite ?edgeStep_skip.
  all: rewrite edgeStep_first by (lra || (apply ahead_pos; lra)).
  all: rewrite ?edgeStep_next by (lra || (apply ahead_pos; lra)).
  all: eexists; (split; [reflexivity |]).
  all: first [ pose proof (reach_edge mnLat sLat dLat ltac:(lra)) as RA;
               pose proof (ahead_pos mnLat sLat dLat ltac:(lra)) as PA
             | pose proof (reach_edge mxLat sLat dLat ltac:(lra)) as RA;
               pose proof (ahead_pos mxLat sLat dLat ltac:(lra)) as PA
             | idtac ].
  all: first [ pose proof (reach_edge mnLon sLon dLon ltac:(lra)) as RO;
               pose proof (ahead_pos mnLon sLon dLon ltac:(lra)) as PO
             | pose proof (reach_edge mxLon sLon dLon ltac:(lra)) as RO;
               pose proof (ahead_pos mxLon sLon dLon ltac:(lra)) as PO
             | idtac ].
  all: try (unfold Rmin; destruct (Rle_dec _ _) as [Hle | Hle]).
  all: repeat match goal with
       | |- context [((?e - ?s) / ?d)%R] =>
           set (q := ((e - s) / d)%R) in *; clearbody q
       | H : context [((?e - ?s) / ?d)%R] |- _ =>
           set (q := ((e - s) / d)%R) in *; clearbody q
       end.
  all: repeat split; try nra.
  all: try (left; lra); try (right; left; lra); try (right; right; left; lra);
       try (right; right; right; lra).
Qed.
End ExitInside.

(** ** Exit point: [calculateExitPoint] for a start inside the region *)

Lemma heading_components (h : R) :
  cos (#h * PI / #180) = #(north h) /\ sin (#h * PI / #180) = #(east h).
Proof. unfold PI. fin_eval. split; reflexivity. Qed.

Lemma direction_not_null (h : R) : north h <> 0%R \/ east h <> 0%R.
Proof.
  unfold north, east. pose proof (sin2_cos2 (radians h)) as Hu.
  unfold Rsqr in Hu.
  destruct (Req_dec (Rtrigo_def.cos (radians h)) 0) as [Hz | Hz];
    [right | left; exact Hz].
  intros Hs. rewrite Hz, Hs in Hu. lra.
Qed.

Lemma calculateExitPoint_inside (mnLat mxLat mnLon mxLon sLat sLon h : R) :
  (mnLat < sLat < mxLat)%R -> (mnLon < sLon < mxLon)%R ->
  exists t,
    firstHit mnLat mxLat mnLon mxLon sLat sLon (north h) (east h) t
    /\ calculateExitPoint (mkBounds #mnLat #mxLat #mnLon #mxLon) #sLat #sLon #h
       = {| exitLat := #(sLat + north h * t);
            exitLon := #(sLon + east h * t);
            distanceMeters :=
              #(distanceDegR sLat sLon (sLat + north h * t) (sLon + east h * t)
                * 111000) |}.
Proof.
  intros Hlat Hlon.
  destruct (nearestEdgeT_inside mnLat mxLat mnLon mxLon sLat sLon Hlat Hlon
              (north h) (east h) (direction_not_null h)) as (t & Ht & Hhit).
  exists t. split; [exact Hhit |].
  unfold calculateExitPoint.
  destruct (heading_components h) as [-> ->]. rewrite Ht.
  destruct (heading_components sLat) as [-> _].
  fin_eval. rewrite sqrt_fin by nra. fin_eval. reflexivity.
Qed.

(** The time of the first hit is no later than the time at which any edge
    is crossed in the forward direction. *)
Lemma no_later_than_edge (towardsMax : bool) (e s d t : R) :
  crossedForward towardsMax e s d ->
  (if towardsMax then s + d * t <= e else e <= s + d * t)%R ->
  (t <= (e - s) / d)%R.
Proof.
  intros [Hd Hq] Hin.
  assert (Hnz : d <> 0%R) by (destruct towardsMax; lra).
  pose proof (reach_edge e s d Hnz) as Hr.
  set (q := ((e - s) / d)%R) in *. clearbody q.
  destruct towardsMax; nra.
Qed.

(** C1. For a start strictly inside the region and a heading in [0, 360),
    the exit point computed by [calculateExitPoint] is finite and lies at a
    positive parametric distance [t] along the heading ray, the least of the
    distances to the edges crossed in the forward direction; it is within
    the closed region with at least one coordinate equal to one of the four
    edge values, and lies from the start in the quadrant of the heading:
    north or south of it as the north component is positive or negative,
    east or west as the east component is, and level with it on an axis
    whose component is zero. *)
Theorem exit_point_on_boundary (mnLat mxLat mnLon mxLon sLat sLon h : R) :
  (mnLat < sLat < mxLat)%R -> (mnLon < sLon < mxLon)%R -> (0 <= h < 360)%R ->
  let ex :=
    calculateExitPoint (mkBounds #mnLat #mxLat #mnLon #mxLon) #sLat #sLon #h in
  exists eLat eLon t,
    exitLat ex = #eLat /\ exitLon ex = #eLon
    /\ (0 < t)%R
    /\ eLat = (sLat + north h * t)%R /\ eLon = (sLon + east h * t)%R
    /\ (crossedForward true mxLat sLat (north h) ->
        (t <= (mxLat - sLat) / north h)%R)
    /\ (crossedForward false mnLat sLat (north h) ->
        (t <= (mnLat - sLat) / north h)%R)
    /\ (crossedForward true mxLon sLon (east h) ->
        (t <= (mxLon - sLon) / east h)%R)
    /\ (crossedForward false mnLon sLon (east h) ->
        (t <= (mnLon - sLon) / east h)%R)
    /\ (mnLat <= eLat <= mxLat)%R /\ (mnLon <= eLon <= mxLon)%R
    /\ (eLat = mxLat \/ eLat = mnLat \/ eLon = mxLon \/ eLon = mnLon)
    /\ ((0 < north h)%R -> (sLat < eLat)%R)
    /\ ((north h < 0)%R -> (eLat < sLat)%R)
    /\ (north h = 0%R -> eLat = sLat)
    /\ ((0 < east h)%R -> (sLon < eLon)%R)
    /\ ((east h < 0)%R -> (eLon < sLon)%R)
    /\ (east h = 0%R -> eLon = sLon).
Proof.
  intros Hlat Hlon _ ex.
  destruct (calculateExitPoint_inside mnLat mxLat mnLon mxLon sLat sLon h
              Hlat Hlon) as (t & (Ht & Hin1 & Hin2 & Hedge) & Hex).
  exists (sLat + north h * t)%R, (sLon + east h * t)%R, t.
  subst ex. rewrite Hex. simpl.
  do 5 (split; [reflexivity || exact Ht |]).
  do 4 (split; [intros Hc; apply (no_later_than_edge _ _ _ _ _ Hc); lra |]).
  repeat split; try tauto; try lra; intros Hd; nra.
Qed.

Lemma exit_point_on_boundary_witness :
  let ex := calculateExitPoint (mkBounds #51 #52 #(-1) #1) #51.5 #0 #90 in
  exists eLat eLon t,
    exitLat ex = #eLat /\ exitLon ex = #eLon
    /\ (0 < t)%R
    /\ eLat = (51.5 + north 90 * t)%R /\ eLon = (0 + east 90 * t)%R
    /\ (crossedForward true 52 51.5 (north 90) ->
        (t <= (52 - 51.5) / north 90)%R)
    /\ (crossedForward false 51 51.5 (north 90) ->
        (t <= (51 - 51.5) / north 90)%R)
    /\ (crossedForward true 1 0 (east 90) -> (t <= (1 - 0) / east 90)%R)
    /\ (crossedForward false (-1) 0 (east 90) ->
        (t <= (-1 - 0) / east 90)%R)
    /\ (51 <= eLat <= 52)%R /\ (-1 <= eLon <= 1)%R
    /\ (eLat = 52 \/ eLat = 51 \/ eLon = 1 \/ eLon = -1)%R
    /\ ((0 < north 90)%R -> (51.5 < eLat)%R)
    /\ ((north 90 < 0)%R -> (eLat < 51.5)%R)
    /\ (north 90 = 0%R -> eLat = 51.5%R)
    /\ ((0 < east 90)%R -> (0 < eLon)%R)
    /\ ((east 90 < 0)%R -> (eLon < 0)%R)
    /\ (east 90 = 0%R -> eLon = 0%R).
Proof. apply (exit_point_on_boundary 51 52 (-1) 1 51.5 0 90); lra. Defined.

(** ** Exit point: when no edge lies ahead *)

Lemma edgeStep_missed (towardsMax : bool) (e s d : R) (minT : num) :
  ~ crossedForward towardsMax e s d ->
  edgeStep (if towardsMax then gt #d #0 else lt #d #0) #e #s #d minT = minT.
Proof.
  unfold crossedForward. intros Hno.
  destruct towardsMax.
  - destruct (Rlt_dec 0 d) as [Hd | Hd].
    + rewrite gt_fin_true by exact Hd. apply edgeStep_behind; lra.
    + rewrite gt_fin_false by lra. reflexivity.
  - destruct (Rlt_dec d 0) as [Hd | Hd].
    + rewrite lt_fin_true by exact Hd. apply edgeStep_behind; lra.
    + rewrite lt_fin_false by lra. reflexivity.
Qed.

Lemma nearestEdgeT_none (mnLat mxLat mnLon mxLon sLat sLon dLat dLon : R) :
  noForwardIntersection mnLat mxLat mnLon mxLon sLat sLon dLat dLon ->
  nearestEdgeT (mkBounds #mnLat #mxLat #mnLon #mxLon) #sLat #sLon #dLat #dLon
  = PInf.
Proof.
  intros (H1 & H2 & H3 & H4). unfold nearestEdgeT; simpl.
  rewrite (edgeStep_missed true _ _ _ _ H1).
  rewrite (edgeStep_missed false _ _ _ _ H2).
  rewrite (edgeStep_missed true _ _ _ _ H3).
  now rewrite (edgeStep_missed false _ _ _ _ H4).
Qed.

(** A finite [minT] stays finite, and a crossed edge makes it finite. *)
Lemma edgeStep_finite (g : bool) (e s d m : R) :
  (g = true -> d <> 0%R) -> isFinite (edgeStep g #e #s #d #m).
Proof.
  intros Hd. destruct g; [| exact I]. unfold edgeStep. fin_eval.
  rewrite ?div_fin by auto. now destruct (_ && _).
Qed.

Lemma edgeStep_crossed (towardsMax : bool) (e s d : R) (minT : num) :
  crossedForward towardsMax e s d -> minT = PInf \/ isFinite minT ->
  isFinite (edgeStep (if towardsMax then gt #d #0 else lt #d #0) #e #s #d minT).
Proof.
  intros [Hd Ht] HM.
  assert (Hg : (if towardsMax then gt #d #0 else lt #d #0) = true).
  { destruct towardsMax; [apply gt_fin_true | apply lt_fin_true]; exact Hd. }
  assert (Hnz : d <> 0%R) by (destruct towardsMax; lra).
  rewrite Hg. destruct HM as [-> | HM].
  - now rewrite edgeStep_first.
  - destruct minT as [m| | |]; try contradiction.
    now rewrite edgeStep_next.
Qed.

Lemma guard_nonzero (towardsMax : bool) (d : R) :
  (if towardsMax then gt #d #0 else lt #d #0) = true -> d <> 0%R.
Proof. destruct towardsMax; intros H%lt_fin_iff; lra. Qed.

Lemma crossedForward_dec (towardsMax : bool) (e s d : R) :
  crossedForward towardsMax e s d \/ ~ crossedForward towardsMax e s d.
Proof.
  unfold crossedForward.
  destruct (Rlt_dec 0 ((e - s) / d)); [| right; tauto].
  destruct towardsMax; [destruct (Rlt_dec 0 d) | destruct (Rlt_dec d 0)];
    tauto.
Qed.

Lemma nearestEdgeT_some (mnLat mxLat mnLon mxLon sLat sLon dLat dLon : R) :
  ~ noForwardIntersection mnLat mxLat mnLon mxLon sLat sLon dLat dLon ->
  isFinite
    (nearestEdgeT (mkBounds #mnLat #mxLat #mnLon #mxLon) #sLat #sLon #dLat #dLon).
Proof.
  intros Hsome. unfold nearestEdgeT; simpl.
  set (m1 := edgeStep (gt #dLat #0) #mxLat #sLat #dLat PInf).
  set (m2 := edgeStep (lt #dLat #0) #mnLat #sLat #dLat m1).
  set (m3 := edgeStep (gt #dLon #0) #mxLon #sLon #dLon m2).
  (* each step keeps [minT] infinite or finite, and finite once finite *)
  assert (step : forall (tm : bool) e s d M,
             M = PInf \/ isFinite M ->
             let M' := edgeStep (if tm then gt #d #0 else lt #d #0)
                         #e #s #d M in
             (isFinite M -> isFinite M')
             /\ (crossedForward tm e s d -> isFinite M')
             /\ (~ crossedForward tm e s d -> M' = M)).
  { intros tm e s d M HM M'. subst M'. repeat split.
    - intros HF. destruct M as [m| | |]; try contradiction.
      apply edgeStep_finite, guard_nonzero.
    - intros Hc. now apply edgeStep_crossed.
    - apply edgeStep_missed. }
  destruct (step true mxLat sLat dLat PInf (or_introl eq_refl)) as (_ & C1 & N1).
  fold m1 in C1, N1.
  assert (Hm1 : m1 = PInf \/ isFinite m1).
  { destruct (crossedForward_dec true mxLat sLat dLat); auto. }
  destruct (step false mnLat sLat dLat m1 Hm1) as (F2 & C2 & N2).
  fold m2 in F2, C2, N2.
  assert (Hm2 : m2 = PInf \/ isFinite m2).
  { destruct (crossedForward_dec false mnLat sLat dLat); auto.
    rewrite N2 by assumption. exact Hm1. }
  destruct (step true mxLon sLon dLon m2 Hm2) as (F3 & C3 & N3).
  fold m3 in F3, C3, N3.
  assert (Hm3 : m3 = PInf \/ isFinite m3).
  { destruct (crossedForward_dec true mxLon sLon dLon); auto.
    rewrite N3 by assumption. exact Hm2. }
  destruct (step false mnLon sLon dLon m3 Hm3) as (F4 & C4 & N4).
  destruct (crossedForward_dec false mnLon sLon dLon) as [K4 | K4];
    [now apply C4 |].
  apply F4.
  destruct (crossedForward_dec true mxLon sLon dLon) as [K3 | K3];
    [now apply C3 |].
  apply F3.
  destruct (crossedForward_dec false mnLat sLat dLat) as [K2 | K2];
    [now apply C2 |].
  apply F2.
  destruct (crossedForward_dec true mxLat sLat dLat) as [K1 | K1];
    [now apply C1 |].
  exfalso. apply Hsome. repeat split; assumption.
Qed.

(** A finite number scaled by an infinite [minT], and a finite start moved
    by the result, are never finite. *)
Lemma mul_fin_pinf (d : R) : ~ isFinite (#d * PInf).
Proof. unfold mul. destruct (sgn d); simpl; tauto. Qed.

Lemma mul_pos_pinf (d : R) : (0 < d)%R -> #d * PInf = PInf.
Proof. intros H. unfold mul. now rewrite sgn_pos. Qed.

Lemma mul_zero_pinf : #0 * PInf = NaN.
Proof. unfold mul. now rewrite sgn_zero. Qed.

Lemma add_fin_nonfinite (s : R) (v : num) : ~ isFinite v -> ~ isFinite (#s + v).
Proof. destruct v; unfold add; simpl; tauto. Qed.

Lemma north_0 : north 0 = 1%R.
Proof.
  unfold north, radians.
  replace (0 * Rtrigo1.PI / 180)%R with 0%R by lra. apply cos_0.
Qed.

Lemma east_0 : east 0 = 0%R.
Proof.
  unfold east, radians.
  replace (0 * Rtrigo1.PI / 180)%R with 0%R by lra. apply sin_0.
Qed.

(** A plane reported exactly on the northern edge and heading due north:
    no edge lies ahead of it. *)
Lemma on_north_edge_heading_north :
  noForwardIntersection 51 52 (-1) 1 52 0 (north 0) (east 0).
Proof.
  rewrite north_0, east_0. unfold noForwardIntersection, crossedForward.
  repeat split; lra.
Qed.

(** [calculateExitPoint] is [exitAlong] at the components it computes. *)
Lemma calculateExitPoint_exitAlong b (startLat startLon headingDeg : num) :
  calculateExitPoint b startLat startLon headingDeg
  = exitAlong b startLat startLon
      (cos (headingDeg * PI / #180)) (sin (headingDeg * PI / #180)).
Proof. reflexivity. Qed.

(** C2 (as amended). Whatever finite direction components [dLat] and [dLon]
    the code has computed from the heading, when no edge of the region is
    crossed in the forward direction along them, [calculateExitPoint]
    applies no fallback: the search leaves [minT] at Infinity and neither
    exit coordinate is a finite number. *)
Theorem no_forward_intersection_no_fallback
    (mnLat mxLat mnLon mxLon sLat sLon dLat dLon : R) :
  noForwardIntersection mnLat mxLat mnLon mxLon sLat sLon dLat dLon ->
  let b := mkBounds #mnLat #mxLat #mnLon #mxLon in
  let ex := exitAlong b #sLat #sLon #dLat #dLon in
  nearestEdgeT b #sLat #sLon #dLat #dLon = PInf
  /\ ~ isFinite (exitLat ex) /\ ~ isFinite (exitLon ex)
  /\ (forall headingDeg : num,
        cos (headingDeg * PI / #180) = #dLat ->
        sin (headingDeg * PI / #180) = #dLon ->
        calculateExitPoint b #sLat #sLon headingDeg = ex).
Proof.
  intros Hno b ex. pose proof (nearestEdgeT_none _ _ _ _ _ _ _ _ Hno) as HT.
  split; [exact HT |].
  subst ex b. unfold exitAlong. rewrite HT. cbn [exitLat exitLon].
  split; [apply add_fin_nonfinite, mul_fin_pinf |].
  split; [apply add_fin_nonfinite, mul_fin_pinf |].
  intros headingDeg Hc Hs.
  rewrite calculateExitPoint_exitAlong, Hc, Hs. unfold exitAlong.
  now rewrite HT.
Qed.

Lemma no_forward_intersection_no_fallback_witness :
  let b := mkBounds #51 #52 #(-1) #1 in
  let ex := exitAlong b #52 #0 #1 #0 in
  nearestEdgeT b #52 #0 #1 #0 = PInf
  /\ ~ isFinite (exitLat ex) /\ ~ isFinite (exitLon ex)
  /\ (forall headingDeg : num,
        cos (headingDeg * PI / #180) = #1 ->
        sin (headingDeg * PI / #180) = #0 ->
        calculateExitPoint b #52 #0 headingDeg = ex).
Proof.
  apply (no_forward_intersection_no_fallback 51 52 (-1) 1 52 0 1 0).
  unfold noForwardIntersection, crossedForward. repeat split; lra.
Defined.

(** C2 (as stated) fails: for a plane on the northern edge heading due
    north the search finds no forward intersection, and the exit point is
    (Infinity, NaN) with a NaN distance, not a corner of the region. *)
Lemma no_fallback_counterexample :
  let b := mkBounds #51 #52 #(-1) #1 in
  nearestEdgeT b #52 #0 (cos (#0 * PI / #180)) (sin (#0 * PI / #180)) = PInf
  /\ calculateExitPoint b #52 #0 #0
     = {| exitLat := PInf; exitLon := NaN; distanceMeters := NaN |}
  /\ ~ (isFinite (exitLat (calculateExitPoint b #52 #0 #0))
        /\ isFinite (exitLon (calculateExitPoint b #52 #0 #0))).
Proof.
  intros b.
  assert (HT : nearestEdgeT b #52 #0 (cos (#0 * PI / #180))
                 (sin (#0 * PI / #180)) = PInf).
  { destruct (heading_components 0) as [-> ->].
    apply nearestEdgeT_none, on_north_edge_heading_north. }
  assert (Hex : calculateExitPoint b #52 #0 #0
                = {| exitLat := PInf; exitLon := NaN; distanceMeters := NaN |}).
  { unfold calculateExitPoint. rewrite HT.
    destruct (heading_components 0) as [-> ->]. rewrite north_0, east_0.
    destruct (heading_components 52) as [-> _].
    rewrite (mul_pos_pinf 1), mul_zero_pinf by lra.
    cbv [add sub neg pow2 mul sqrt]. reflexivity. }
  split; [exact HT |]. split; [exact Hex |].
  rewrite Hex. simpl. tauto.
Qed.

(** ** Claims on projection, progress, trails and interpolation *)

(** C7. With min < max on both axes and positive viewport dimensions, for
    every (lat, lon) strictly inside the region [screenToLatLon] of
    [latLonToScreen] gives back (lat, lon), and for every screen point of
    the viewport [latLonToScreen] of [screenToLatLon] gives back the point:
    exactly, finite arithmetic being exact. *)
Theorem projection_round_trip (mnLat mxLat mnLon mxLon W H la lo px py : R) :
  (mnLat < mxLat)%R -> (mnLon < mxLon)%R -> (0 < W)%R -> (0 < H)%R ->
  (mnLat < la < mxLat)%R -> (mnLon < lo < mxLon)%R ->
  (0 <= px <= W)%R -> (0 <= py <= H)%R ->
  let b := mkBounds #mnLat #mxLat #mnLon #mxLon in
  let w := mkWindow #W #H in
  (let p := latLonToScreen b w #la #lo in
   screenToLatLon b w (x p) (y p) = {| lat := #la; lon := #lo |})
  /\ (let g := screenToLatLon b w #px #py in
      latLonToScreen b w (lat g) (lon g) = {| x := #px; y := #py |}).
Proof.
  intros HLat HLon HW HH _ _ _ _ b w. split.
  - now apply toGeo_toScreen.
  - now apply toScreen_toGeo.
Qed.

Lemma projection_round_trip_witness :
  let b := mkBounds #51 #52 #(-1) #1 in
  let w := mkWindow #800 #480 in
  (let p := latLonToScreen b w #51.5 #0.25 in
   screenToLatLon b w (x p) (y p) = {| lat := #51.5; lon := #0.25 |})
  /\ (let g := screenToLatLon b w #200 #120 in
      latLonToScreen b w (lat g) (lon g) = {| x := #200; y := #120 |}).
Proof.
  apply (projection_round_trip 51 52 (-1) 1 800 480 51.5 0.25 200 120); lra.
Defined.

(** C4. For a trajectory of positive duration the progress computed by
    [animate] at time [t] is min((t - startTime) / duration, 1): it does not
    decrease as time passes, is exactly 1 when the elapsed time equals the
    duration, and never exceeds 1. *)
Theorem progress_monotone_clamped (s : Plane.state) (t0 d : R) :
  Plane.startTime s = #t0 -> Plane.duration s = #d -> (0 < d)%R ->
  (forall t, progressAt #t s = #(Rmin ((t - t0) / d) 1))
  /\ (forall t u p q, (t <= u)%R ->
        progressAt #t s = #p -> progressAt #u s = #q -> (p <= q)%R)
  /\ progressAt #(t0 + d) s = #1
  /\ (forall t p, progressAt #t s = #p -> (p <= 1)%R).
Proof.
  intros Ht Hd Hpos.
  assert (Hp : forall t, progressAt #t s = #(Rmin ((t - t0) / d) 1))
    by (intros; now apply progressAt_fin).
  split; [exact Hp |]. repeat split.
  - intros t u p q Htu Hpt Hpu. rewrite Hp in Hpt, Hpu.
    injection Hpt as <-. injection Hpu as <-.
    apply Rle_min_compat_r. apply Rmult_le_compat_r; [| lra].
    left. now apply Rinv_0_lt_compat.
  - rewrite Hp. f_equal.
    replace ((t0 + d - t0) / d)%R with 1%R by (field; lra).
    apply Rmin_left. lra.
  - intros t p Hpt. rewrite Hp in Hpt. injection Hpt as <-. apply Rmin_r.
Qed.

Lemma trailStartProgress_low (p : R) :
  (p <= 0.6)%R -> trailStartProgress #p = #0.
Proof.
  intros Hp. unfold trailStartProgress, fadeProgress, truthy.
  destruct (Req_dec_T p 0); rewrite gt_fin_false by lra; fin_eval; f_equal; lra.
Qed.

Lemma trailStartProgress_high (p : R) :
  (0.6 < p)%R -> trailStartProgress #p = #((p - 0.6) / 0.4 * p).
Proof.
  intros Hp. unfold trailStartProgress, fadeProgress.
  rewrite truthy_fin by lra. rewrite gt_fin_true by exact Hp.
  fin_eval. reflexivity.
Qed.

Lemma trailStartProgress_fin (p : R) : exists ts, trailStartProgress #p = #ts.
Proof.
  destruct (Rle_dec p 0.6) as [Hp | Hp].
  - eexists. now apply trailStartProgress_low.
  - eexists. apply trailStartProgress_high. lra.
Qed.

(** The stroke of a plane runs from the path point at the trail start to
    the plane: the last of the four sampled points of a curved path is the
    path point at the current progress, and a straight stroke ends at the
    plane's screen position. *)
Lemma trailOf_span b w s (p : R) :
  Plane.progress s = #p ->
  let a := pathAt s (trailStartProgress #p) in
  let z := pathAt s #p in
  hd_error (polyline (trailOf b w s)) = Some (latLonToScreen b w (lat a) (lon a))
  /\ gradFrom (trailOf b w s) = latLonToScreen b w (lat a) (lon a)
  /\ gradTo (trailOf b w s) = Plane.screenPos s
  /\ last (polyline (trailOf b w s))
     = Some match Plane.curveControl s with
            | Some _ => latLonToScreen b w (lat z) (lon z)
            | None => Plane.screenPos s
            end.
Proof.
  intros Hp a z. unfold trailOf. rewrite Hp. fold a.
  repeat split. subst a z.
  destruct (trailStartProgress_fin p) as (ts & ->).
  destruct (Plane.curveControl s) as [cp |] eqn:Hcp; [| reflexivity].
  cbn [map polyline last].
  assert (Hlast : #ts + ((if truthy #p then #p else #0) - #ts) * (#4 / #4) = #p).
  { unfold truthy. destruct (Req_dec_T p 0) as [-> | Hne];
      fin_eval; f_equal; field. }
  now rewrite Hlast.
Qed.

(** C8. The trail start computed by [drawTrails] from a stored progress
    [p] is 0 whenever [p] is at most 0.6, and ((p - 0.6) / 0.4) * p above
    0.6, which is exactly [p] at completion ([p = 1]); the stroke drawn for
    a plane starts at the projection of the path point at that trail start
    and ends at the plane's current position on the path. *)
Theorem trail_start_progress (p : R) :
  ((p <= 0.6)%R -> trailStartProgress #p = #0)
  /\ ((0.6 < p)%R -> trailStartProgress #p = #((p - 0.6) / 0.4 * p))
  /\ trailStartProgress #1 = #1
  /\ (forall b w s, Plane.progress s = #p ->
        let a := pathAt s (trailStartProgress #p) in
        let z := pathAt s #p in
        hd_error (polyline (trailOf b w s))
        = Some (latLonToScreen b w (lat a) (lon a))
        /\ gradFrom (trailOf b w s) = latLonToScreen b w (lat a) (lon a)
        /\ gradTo (trailOf b w s) = Plane.screenPos s
        /\ last (polyline (trailOf b w s))
           = Some match Plane.curveControl s with
                  | Some _ => latLonToScreen b w (lat z) (lon z)
                  | None => Plane.screenPos s
                  end).
Proof.
  split; [apply trailStartProgress_low |].
  split; [apply trailStartProgress_high |].
  split; [rewrite trailStartProgress_high by lra; f_equal; lra |].
  intros b w s Hp. now apply trailOf_span.
Qed.

(** C9. For a trajectory without curve-control point, the position stored
    by [animate] in a pass whose progress is 0.5 is the midpoint of start
    and exit: the average of the latitudes and of the longitudes. *)
Theorem straight_path_midpoint bnd w (currentTime : num) (s : Plane.state)
    (a b c d : R) :
  finitePath s a b c d -> Plane.curveControl s = None ->
  progressAt currentTime s = #0.5 ->
  let s' := advance bnd w currentTime s in
  Plane.lat s' = #((a + c) / 2) /\ Plane.lon s' = #((b + d) / 2).
Proof.
  intros Hfp Hcc Hp s'.
  destruct (advance_position bnd w currentTime s) as [_ Hpos].
  fold s' in Hpos. rewrite Hp, (pathAt_straight_half s a b c d Hfp Hcc) in Hpos.
  now injection Hpos.
Qed.


(** ** The registry under [animate] *)

Lemma removeAll_lookup (ids : list string) (ps : gmap string Plane.state)
    (i : string) :
  removeAll ids ps !! i = if decide (i ∈ ids) then None else ps !! i.
Proof.
  unfold removeAll. revert ps. induction ids as [| j ids IH]; intros ps.
  - destruct (decide (i ∈ [])) as [Hin | _]; [| reflexivity].
    now apply elem_of_nil in Hin.
  - cbn [foldl]. rewrite IH.
    destruct (decide (i ∈ ids)) as [Hin | Hni];
      destruct (decide (i ∈ j :: ids)) as [Hin' | Hni']; try reflexivity.
    + exfalso. apply Hni'. now right.
    + apply elem_of_cons in Hin' as [-> | Hin']; [| contradiction].
      apply lookup_delete_eq.
    + apply lookup_delete_ne. intros ->. apply Hni'. now left.
Qed.

Lemma toRemove_elem (ps : gmap string Plane.state) (i : string) :
  i ∈ toRemove ps <->
  exists s, ps !! i = Some s /\ ge (Plane.progress s) #1 = true.
Proof.
  unfold toRemove. rewrite list_elem_of_fmap. split.
  - intros ([j s] & -> & Hin). apply list_elem_of_filter in Hin as [Hp Hin].
    apply elem_of_map_to_list in Hin. exists s. split; assumption.
  - intros (s & Hs & Hp). exists (i, s). split; [reflexivity |].
    apply list_elem_of_filter. split; [exact Hp |].
    now apply elem_of_map_to_list.
Qed.

(** The registry after a pass of [animate] that is not throttled. *)
Lemma animate_lookup b w (t : num) (e : Engine) (i : string) :
  lt (t - lastAnimateTime e) FRAME_INTERVAL = false ->
  planes (animate b w t e) !! i =
  match planes e !! i with
  | Some s => if ge (progressAt t s) #1 then None else Some (advance b w t s)
  | None => None
  end.
Proof.
  intros Hrun. unfold animate. rewrite Hrun. simpl.
  rewrite removeAll_lookup, lookup_fmap.
  destruct (planes e !! i) as [s |] eqn:Hs; simpl.
  - destruct (advance_position b w t s) as [Hp _]. simpl in Hp.
    destruct (ge (progressAt t s) #1) eqn:Hge.
    + rewrite decide_True; [reflexivity |].
      apply toRemove_elem. exists (advance b w t s).
      rewrite lookup_fmap, Hs, Hp. split; [reflexivity | exact Hge].
    + rewrite decide_False; [reflexivity |].
      intros (s' & Hs' & Hge')%toRemove_elem.
      rewrite lookup_fmap, Hs in Hs'. injection Hs' as <-.
      rewrite Hp in Hge'. congruence.
  - now destruct (decide _).
Qed.

(** ** The registry under [fetchFlightData] *)

Lemma setLabel_setLabel c k c' k' s :
  Plane.setLabel c' k' (Plane.setLabel c k s) = Plane.setLabel c' k' s.
Proof. reflexivity. Qed.

Lemma setLabel_same s : Plane.setLabel (Plane.callsign s) (Plane.country s) s = s.
Proof. now destruct s. Qed.

(** One sample: a tracked plane only has its label rewritten, and no other
    entry of the registry is touched. *)
Lemma processPlane_tracked o b w e pd s :
  planes e !! PlaneData.id pd = Some s ->
  exists e',
    processPlane o b w e pd = Some e'
    /\ planes e' =
       <[PlaneData.id pd :=
           Plane.setLabel (PlaneData.callsign pd) (PlaneData.country pd) s]>
         (planes e).
Proof. intros Hs. unfold processPlane. rewrite Hs. eexists. split; reflexivity. Qed.

Lemma processPlane_other o b w e pd e' (i : string) :
  processPlane o b w e pd = Some e' -> i <> PlaneData.id pd ->
  planes e' !! i = planes e !! i.
Proof.
  unfold processPlane. intros Hp Hne.
  destruct (planes e !! PlaneData.id pd) as [s |].
  - injection Hp as <-. simpl. now rewrite lookup_insert_ne.
  - destruct (PlaneData.position pd) as [pos |]; [| discriminate].
    destruct (newPlane o b w e pd pos) as [s rc]. injection Hp as <-. simpl.
    now rewrite lookup_insert_ne.
Qed.

Lemma processPlane_keeps o b w e pd e' (i : string) s :
  processPlane o b w e pd = Some e' -> planes e !! i = Some s ->
  exists c k, planes e' !! i = Some (Plane.setLabel c k s).
Proof.
  intros Hp Hs. destruct (decide (i = PlaneData.id pd)) as [-> | Hne].
  - destruct (processPlane_tracked o b w e pd s Hs) as (e2 & He2 & Hps).
    rewrite He2 in Hp. injection Hp as <-. rewrite Hps, lookup_insert_eq.
    eauto.
  - rewrite (processPlane_other o b w e pd e' i Hp Hne), Hs.
    exists (Plane.callsign s), (Plane.country s). now rewrite setLabel_same.
Qed.

Lemma processPlanes_keeps o b w l : forall e (i : string) s,
  planes e !! i = Some s ->
  exists c k, planes (processPlanes o b w e l).1 !! i = Some (Plane.setLabel c k s).
Proof.
  induction l as [| pd l IH]; intros e i s Hs; simpl.
  - exists (Plane.callsign s), (Plane.country s). now rewrite setLabel_same.
  - destruct (processPlane o b w e pd) as [e' |] eqn:Hp; simpl.
    + destruct (processPlane_keeps o b w e pd e' i s Hp Hs) as (c & k & Hs').
      destruct (IH e' i _ Hs') as (c' & k' & Hfin).
      exists c', k'. now rewrite Hfin, setLabel_setLabel.
    + exists (Plane.callsign s), (Plane.country s). now rewrite setLabel_same.
Qed.

Lemma processPlanes_absent o b w l : forall e (i : string),
  i ∉ PlaneData.id <$> l ->
  planes (processPlanes o b w e l).1 !! i = planes e !! i.
Proof.
  induction l as [| pd l IH]; intros e i Hni; simpl; [reflexivity |].
  rewrite fmap_cons in Hni. apply not_elem_of_cons in Hni as [Hne Hni].
  destruct (processPlane o b w e pd) as [e' |] eqn:Hp; simpl; [| reflexivity].
  rewrite (IH e' i Hni). now apply processPlane_other with o b w pd.
Qed.

(** [fetchFlightData] changes the registry only through the loop. *)
Lemma fetchFlightData_planes o b w r e :
  planes (fetchFlightData o b w r e) =
  match r with
  | Planes l =>
      planes (processPlanes o b w
                (if isConnected e then e else withConnection true None e) l).1
  | _ => planes e
  end.
Proof.
  destruct r as [| | l]; simpl.
  - unfold onFetchError. now destruct (isConnected e).
  - now destruct (isConnected e).
  - destruct (processPlanes _ _ _ _ l) as [e' threw]. simpl.
    destruct threw; [| reflexivity].
    unfold onFetchError. now destruct (isConnected e').
Qed.

Lemma fetchFlightData_keeps o b w r e (i : string) s :
  planes e !! i = Some s ->
  exists c k,
    planes (fetchFlightData o b w r e) !! i = Some (Plane.setLabel c k s).
Proof.
  intros Hs. rewrite fetchFlightData_planes. destruct r as [| | l].
  - exists (Plane.callsign s), (Plane.country s). now rewrite setLabel_same.
  - exists (Plane.callsign s), (Plane.country s). now rewrite setLabel_same.
  - apply processPlanes_keeps. now destruct (isConnected e).
Qed.

Lemma fetchFlightData_absent o b w l e (i : string) :
  i ∉ PlaneData.id <$> l ->
  planes (fetchFlightData o b w (Planes l) e) !! i = planes e !! i.
Proof.
  intros Hni. rewrite fetchFlightData_planes, processPlanes_absent by exact Hni.
  now destruct (isConnected e).
Qed.

(** ** Duration of a new trajectory *)

Lemma orDefault_missing_or_zero (v : option num) (d : num) :
  v = None \/ v = Some #0 -> orDefault v d = d.
Proof.
  intros [-> | ->]; [reflexivity |]. unfold orDefault, truthy.
  destruct (Req_dec_T 0 0); [reflexivity | contradiction].
Qed.

Lemma newPlane_duration o b w e pd pos :
  Plane.duration (newPlane o b w e pd pos).1
  = distanceMeters
      (calculateExitPoint b (lat pos) (lon pos) (PlaneData.heading pd))
    / orDefault (PlaneData.velocity_mps pd) #200 / #3 * #1000.
Proof. unfold newPlane. now destruct (generateCurveControl _ _ _ _ _ _ _). Qed.

Lemma processPlane_new o b w e pd pos :
  planes e !! PlaneData.id pd = None -> PlaneData.position pd = Some pos ->
  exists e',
    processPlane o b w e pd = Some e'
    /\ planes e' !! PlaneData.id pd = Some (newPlane o b w e pd pos).1.
Proof.
  intros Hnew Hpos. unfold processPlane. rewrite Hnew, Hpos.
  destruct (newPlane o b w e pd pos) as [s rc]. eexists. split; [reflexivity |].
  simpl. apply lookup_insert_eq.
Qed.

Lemma cos_latitude_pos (la : R) :
  (-90 < la < 90)%R -> (0 < Rtrigo_def.cos (radians la))%R.
Proof.
  intros [Hlo Hhi]. pose proof PI_RGT_0 as Hpi. unfold radians.
  apply cos_gt_0; nra.
Qed.

(** From a start strictly inside a region of valid latitudes the distance
    to the exit point is positive. *)
Lemma exit_distance_pos (mnLat mxLat mnLon mxLon sLat sLon h : R) :
  (-90 <= mnLat)%R -> (mxLat <= 90)%R ->
  (mnLat < sLat < mxLat)%R -> (mnLon < sLon < mxLon)%R ->
  exists dist,
    distanceMeters
      (calculateExitPoint (mkBounds #mnLat #mxLat #mnLon #mxLon) #sLat #sLon #h)
    = #dist /\ (0 < dist)%R.
Proof.
  intros Hs Hn Hlat Hlon.
  destruct (calculateExitPoint_inside mnLat mxLat mnLon mxLon sLat sLon h
              Hlat Hlon) as (t & (Ht & _) & ->).
  eexists. split; [reflexivity |].
  apply Rmult_lt_0_compat; [| lra]. unfold distanceDegR.
  apply sqrt_lt_R0.
  pose proof (cos_latitude_pos sLat ltac:(lra)) as Hc.
  set (c := Rtrigo_def.cos (radians sLat)) in *.
  replace (sLat + north h * t - sLat)%R with (north h * t)%R by ring.
  replace (sLon + east h * t - sLon)%R with (east h * t)%R by ring.
  destruct (direction_not_null h) as [Hd | Hd].
  - assert (north h * t <> 0)%R
      by (apply Rmult_integral_contrapositive_currified; lra).
    pose proof (Rsqr_pos_lt _ H) as Hsq. unfold Rsqr in Hsq.
    pose proof (Rle_0_sqr (east h * t * c)) as Hsq'. unfold Rsqr in Hsq'. lra.
  - assert (east h * t * c <> 0)%R.
    { repeat apply Rmult_integral_contrapositive_currified; lra. }
    pose proof (Rsqr_pos_lt _ H) as Hsq. unfold Rsqr in Hsq.
    pose proof (Rle_0_sqr (north h * t)) as Hsq'. unfold Rsqr in Hsq'. lra.
Qed.

(** C6. A new sample whose speed is missing or zero is planned with the
    default cruise speed of 200 m/s: for a start strictly inside the region
    (a rectangle of valid latitudes) the stored duration is the finite
    number distance / 200 / 3 * 1000, and it is positive. *)
Theorem stalled_speed_uses_default o w e pd
    (mnLat mxLat mnLon mxLon sLat sLon h : R) :
  (-90 <= mnLat)%R -> (mxLat <= 90)%R ->
  (mnLat < sLat < mxLat)%R -> (mnLon < sLon < mxLon)%R ->
  planes e !! PlaneData.id pd = None ->
  PlaneData.position pd = Some {| lat := #sLat; lon := #sLon |} ->
  PlaneData.heading pd = #h ->
  PlaneData.velocity_mps pd = None \/ PlaneData.velocity_mps pd = Some #0 ->
  let b := mkBounds #mnLat #mxLat #mnLon #mxLon in
  exists e' s dist d,
    processPlane o b w e pd = Some e'
    /\ planes e' !! PlaneData.id pd = Some s
    /\ distanceMeters (calculateExitPoint b #sLat #sLon #h) = #dist
    /\ Plane.duration s = #d
    /\ d = (dist / 200 / 3 * 1000)%R
    /\ (0 < d)%R.
Proof.
  intros Hs Hn Hlat Hlon Hnew Hpos Hh Hv b.
  destruct (processPlane_new o b w e pd _ Hnew Hpos) as (e' & He' & Hin).
  destruct (exit_distance_pos mnLat mxLat mnLon mxLon sLat sLon h
              Hs Hn Hlat Hlon) as (dist & Hdist & Hdpos).
  exists e', (newPlane o b w e pd {| lat := #sLat; lon := #sLon |}).1,
    dist, (dist / 200 / 3 * 1000)%R.
  repeat split; try assumption.
  - rewrite newPlane_duration. subst b. cbn [lat lon]. rewrite Hh.
    rewrite Hdist, (orDefault_missing_or_zero _ _ Hv). fin_eval. reflexivity.
  - lra.
Qed.

(** ** Claims on the registry *)

Lemma sameJourney_setLabel c k s : sameJourney s (Plane.setLabel c k s).
Proof. repeat split. Qed.

Lemma sameJourney_advance b w t s : sameJourney s (advance b w t s).
Proof.
  unfold sameJourney.
  pose proof (advance_trajectory b w t s) as H. simpl in H. tauto.
Qed.

(** C3. Reconciling a sample whose id is already tracked rewrites only the
    label of the plane (callsign and country): start point, exit point,
    curve-control point, start time and duration are as before (and so is
    the colour), whether the sample is processed alone or anywhere within a
    whole response of the feed. *)
Theorem no_midflight_rerouting o b w e pd s :
  planes e !! PlaneData.id pd = Some s ->
  (exists e' s',
      processPlane o b w e pd = Some e'
      /\ planes e' !! PlaneData.id pd = Some s'
      /\ s' = Plane.setLabel (PlaneData.callsign pd) (PlaneData.country pd) s
      /\ sameJourney s s'
      /\ Plane.color s' = Plane.color s
      /\ forall i : string, i <> PlaneData.id pd ->
           planes e' !! i = planes e !! i)
  /\ (forall r, exists s',
        planes (fetchFlightData o b w r e) !! PlaneData.id pd = Some s'
        /\ sameJourney s s'
        /\ Plane.color s' = Plane.color s).
Proof.
  intros Hs. split.
  - destruct (processPlane_tracked o b w e pd s Hs) as (e' & He' & Hps).
    exists e', (Plane.setLabel (PlaneData.callsign pd) (PlaneData.country pd) s).
    split; [exact He' |]. rewrite Hps, lookup_insert_eq.
    repeat split. intros i Hne. now rewrite lookup_insert_ne.
  - intros r.
    destruct (fetchFlightData_keeps o b w r e _ s Hs) as (c & k & ->).
    eexists. split; [reflexivity |]. repeat split.
Qed.

(** C5. A tracked plane leaves the registry in the very pass of [animate]
    that computes a progress of 1 for it, and in no other way: a throttled
    pass changes nothing, a pass computing another progress keeps the plane
    on its planned journey, and [fetchFlightData] keeps every tracked plane
    on its planned journey whatever the response, leaving its state
    untouched when its id is absent from the snapshot. *)
Theorem removal_only_on_completion o b w (t : num) e (i : string) s :
  planes e !! i = Some s ->
  (lt (t - lastAnimateTime e) FRAME_INTERVAL = true -> animate b w t e = e)
  /\ (lt (t - lastAnimateTime e) FRAME_INTERVAL = false ->
      (progressAt t s = #1 -> planes (animate b w t e) !! i = None)
      /\ (progressAt t s <> #1 ->
          planes (animate b w t e) !! i = Some (advance b w t s)
          /\ sameJourney s (advance b w t s)))
  /\ (forall r, exists s',
        planes (fetchFlightData o b w r e) !! i = Some s' /\ sameJourney s s')
  /\ (forall l, i ∉ PlaneData.id <$> l ->
        planes (fetchFlightData o b w (Planes l) e) !! i = Some s).
Proof.
  intros Hs. split; [| split; [| split]].
  - intros Hthr. unfold animate. now rewrite Hthr.
  - intros Hrun. rewrite (animate_lookup b w t e i Hrun), Hs.
    pose proof (min_one_complete
                  ((t - Plane.startTime s) / Plane.duration s)) as Hc.
    fold (progressAt t s) in Hc. split.
    + intros Hp. apply Hc in Hp. now rewrite Hp.
    + intros Hp. destruct (ge (progressAt t s) #1) eqn:Hge.
      * exfalso. now apply Hp, Hc.
      * split; [reflexivity | apply sameJourney_advance].
  - intros r.
    destruct (fetchFlightData_keeps o b w r e i s Hs) as (c & k & ->).
    eexists. split; [reflexivity | apply sameJourney_setLabel].
  - intros l Hni. now rewrite fetchFlightData_absent.
Qed.

Lemma demoPlane_finitePath : finitePath demoPlane 51.5 0 51.5 1.
Proof. constructor; reflexivity || exact I. Qed.

Lemma demoPlane_tracked : planes demoEngine !! "4ca7b1"%string = Some demoPlane.
Proof. apply lookup_singleton_eq. Qed.

Lemma demoPlane_halfway : progressAt #500 demoPlane = #0.5.
Proof.
  rewrite (progressAt_fin demoPlane 500 0 1000) by (reflexivity || lra).
  f_equal. unfold Rmin. destruct (Rle_dec _ _); lra.
Qed.

(** ** Instances of the claims on the sample data *)

Lemma progress_monotone_clamped_witness :
  (forall t, progressAt #t demoPlane = #(Rmin ((t - 0) / 1000) 1))
  /\ (forall t u p q, (t <= u)%R ->
        progressAt #t demoPlane = #p -> progressAt #u demoPlane = #q ->
        (p <= q)%R)
  /\ progressAt #(0 + 1000) demoPlane = #1
  /\ (forall t p, progressAt #t demoPlane = #p -> (p <= 1)%R).
Proof.
  apply (progress_monotone_clamped demoPlane 0 1000);
    [reflexivity | reflexivity | lra].
Defined.

Lemma straight_path_midpoint_witness :
  let s' := advance demoBounds demoWindow #500 demoPlane in
  Plane.lat s' = #((51.5 + 51.5) / 2) /\ Plane.lon s' = #((0 + 1) / 2).
Proof.
  apply (straight_path_midpoint demoBounds demoWindow #500 demoPlane
           51.5 0 51.5 1).
  - exact demoPlane_finitePath.
  - reflexivity.
  - exact demoPlane_halfway.
Defined.


Lemma no_midflight_rerouting_witness :
  (exists e' s',
      processPlane demoOracle demoBounds demoWindow demoEngine demoUpdate
      = Some e'
      /\ planes e' !! PlaneData.id demoUpdate = Some s'
      /\ s' = Plane.setLabel "RYR22" "Ireland" demoPlane
      /\ sameJourney demoPlane s'
      /\ Plane.color s' = Plane.color demoPlane
      /\ forall i : string, i <> PlaneData.id demoUpdate ->
           planes e' !! i = planes demoEngine !! i)
  /\ (forall r, exists s',
        planes (fetchFlightData demoOracle demoBounds demoWindow r demoEngine)
          !! PlaneData.id demoUpdate = Some s'
        /\ sameJourney demoPlane s'
        /\ Plane.color s' = Plane.color demoPlane).
Proof.
  apply (no_midflight_rerouting demoOracle demoBounds demoWindow demoEngine
           demoUpdate demoPlane).
  exact demoPlane_tracked.
Defined.

Lemma removal_only_on_completion_witness :
  (lt (#1000 - lastAnimateTime demoEngine) FRAME_INTERVAL = true ->
   animate demoBounds demoWindow #1000 demoEngine = demoEngine)
  /\ (lt (#1000 - lastAnimateTime demoEngine) FRAME_INTERVAL = false ->
      (progressAt #1000 demoPlane = #1 ->
       planes (animate demoBounds demoWindow #1000 demoEngine)
         !! "4ca7b1"%string = None)
      /\ (progressAt #1000 demoPlane <> #1 ->
          planes (animate demoBounds demoWindow #1000 demoEngine)
            !! "4ca7b1"%string
          = Some (advance demoBounds demoWindow #1000 demoPlane)
          /\ sameJourney demoPlane
               (advance demoBounds demoWindow #1000 demoPlane)))
  /\ (forall r, exists s',
        planes (fetchFlightData demoOracle demoBounds demoWindow r demoEngine)
          !! "4ca7b1"%string = Some s'
        /\ sameJourney demoPlane s')
  /\ (forall l, "4ca7b1"%string ∉ PlaneData.id <$> l ->
        planes (fetchFlightData demoOracle demoBounds demoWindow (Planes l)
                  demoEngine) !! "4ca7b1"%string = Some demoPlane).
Proof.
  apply (removal_only_on_completion demoOracle demoBounds demoWindow #1000
           demoEngine "4ca7b1" demoPlane).
  exact demoPlane_tracked.
Defined.

Lemma stalled_speed_uses_default_witness :
  exists e' s dist d,
    processPlane demoOracle demoBounds demoWindow emptyEngine demoStalled
    = Some e'
    /\ planes e' !! PlaneData.id demoStalled = Some s
    /\ distanceMeters (calculateExitPoint demoBounds #51.5 #0 #90) = #dist
    /\ Plane.duration s = #d
    /\ d = (dist / 200 / 3 * 1000)%R
    /\ (0 < d)%R.
Proof.
  apply (stalled_speed_uses_default demoOracle demoWindow emptyEngine
           demoStalled 51 52 (-1) 1 51.5 0 90);
    try lra; try reflexivity.
  left; reflexivity.
Defined.

(** ** Worked scenarios *)

Lemma north_90 : north 90 = 0%R.
Proof.
  unfold north, radians.
  replace (90 * Rtrigo1.PI / 180)%R with (Rtrigo1.PI / 2)%R by field.
  apply cos_PI2.
Qed.

Lemma east_90 : east 90 = 1%R.
Proof.
  unfold east, radians.
  replace (90 * Rtrigo1.PI / 180)%R with (Rtrigo1.PI / 2)%R by field.
  apply sin_PI2.
Qed.

(** Straight flight: from (51.5, 0) heading due east in the sample region,
    the exit point is on the eastern edge at the same latitude. *)
Example exit_due_east :
  let ex := calculateExitPoint demoBounds #51.5 #0 #90 in
  exitLat ex = #51.5 /\ exitLon ex = #1.
Proof.
  unfold calculateExitPoint, demoBounds.
  destruct (heading_components 90) as [-> ->]. rewrite north_90, east_90.
  unfold nearestEdgeT; simpl.
  destruct guards_zero as [-> ->]. destruct (guards_pos 1) as [-> ->]; [lra |].
  rewrite !edgeStep_skip, edgeStep_first by lra. simpl. fin_eval.
  split; f_equal; lra.
Qed.

(** Completion: one millisecond after the end of its journey the sample
    plane is removed by the pass that computes its progress. *)
Example completed_plane_removed :
  progressAt #1001 demoPlane = #1
  /\ planes (animate demoBounds demoWindow #1001 demoEngine) = ∅.
Proof.
  assert (Hp : progressAt #1001 demoPlane = #1).
  { rewrite (progressAt_fin demoPlane 1001 0 1000) by (reflexivity || lra).
    f_equal. apply Rmin_right. lra. }
  split; [exact Hp |]. apply map_eq. intros i.
  rewrite animate_lookup.
  - rewrite lookup_empty. simpl.
    destruct (decide (i = "4ca7b1"%string)) as [-> | Hne].
    + rewrite lookup_singleton_eq, Hp.
      now rewrite (proj2 (ge_fin_iff 1 1)) by lra.
    + now rewrite lookup_singleton_ne.
  - unfold FRAME_INTERVAL, TARGET_FPS. simpl. fin_eval.
    apply lt_fin_false. lra.
Qed.

(** Missed sample: a snapshot without the tracked plane leaves it as it is,
    and half way through its journey it is at the midpoint of its path. *)
Example missed_sample_keeps_flying :
  let e := fetchFlightData demoOracle demoBounds demoWindow (Planes [])
             demoEngine in
  planes e !! "4ca7b1"%string = Some demoPlane
  /\ Plane.lon (advance demoBounds demoWindow #500 demoPlane) = #((0 + 1) / 2).
Proof.
  split.
  - rewrite fetchFlightData_absent by apply not_elem_of_nil.
    apply lookup_singleton_eq.
  - destruct (advance_position demoBounds demoWindow #500 demoPlane)
      as [_ Hpos].
    rewrite demoPlane_halfway in Hpos.
    rewrite (pathAt_straight_half demoPlane 51.5 0 51.5 1
               demoPlane_finitePath eq_refl) in Hpos.
    now injection Hpos.
Qed.

(* ===================================================================== *)
(** * Further properties of the engine *)
(* ===================================================================== *)

(** ** Projection *)

Lemma fraction_between (a lo hi : R) :
  (lo < a < hi)%R -> (0 < (a - lo) / (hi - lo) < 1)%R.
Proof.
  intros [Hlo Hhi]. split.
  - apply Rdiv_lt_0_compat; lra.
  - apply (Rmult_lt_reg_r (hi - lo)); [lra |].
    replace ((a - lo) / (hi - lo) * (hi - lo))%R with (a - lo)%R
      by (field; lra).
    lra.
Qed.

Lemma fraction_increasing (a c lo hi : R) :
  (lo < hi)%R -> (a < c)%R -> ((a - lo) / (hi - lo) < (c - lo) / (hi - lo))%R.
Proof.
  intros Hspan Hac. unfold Rdiv. apply Rmult_lt_compat_r; [| lra].
  apply Rinv_0_lt_compat. lra.
Qed.

(** X1. A point strictly inside the region is drawn strictly inside the
    viewport. *)
Theorem projection_inside_viewport (mnLat mxLat mnLon mxLon W H la lo : R) :
  (mnLat < la < mxLat)%R -> (mnLon < lo < mxLon)%R ->
  (0 < W)%R -> (0 < H)%R ->
  exists px py,
    latLonToScreen (mkBounds #mnLat #mxLat #mnLon #mxLon) (mkWindow #W #H)
      #la #lo = {| x := #px; y := #py |}
    /\ (0 < px < W)%R /\ (0 < py < H)%R.
Proof.
  intros Hla Hlo HW HH.
  rewrite latLonToScreen_fin by lra.
  eexists _, _. split; [reflexivity |].
  pose proof (fraction_between la mnLat mxLat Hla) as Hq.
  pose proof (fraction_between lo mnLon mxLon Hlo) as Hp.
  set (q := ((la - mnLat) / (mxLat - mnLat))%R) in *.
  set (p := ((lo - mnLon) / (mxLon - mnLon))%R) in *.
  clearbody q p. split; split; nra.
Qed.

Lemma projection_inside_viewport_witness :
  exists px py,
    latLonToScreen (mkBounds #51 #52 #(-1) #1) (mkWindow #800 #480) #51.5 #0
    = {| x := #px; y := #py |}
    /\ (0 < px < 800)%R /\ (0 < py < 480)%R.
Proof.
  apply (projection_inside_viewport 51 52 (-1) 1 800 480 51.5 0); lra.
Defined.

(** X2. The projection is oriented as a map: the north-west corner of the
    region is drawn at the origin of the viewport and the south-east corner
    at (width, height); a point further east has a greater x and a point
    further north a smaller y. *)
Theorem projection_orientation (mnLat mxLat mnLon mxLon W H : R) :
  (mnLat < mxLat)%R -> (mnLon < mxLon)%R -> (0 < W)%R -> (0 < H)%R ->
  let b := mkBounds #mnLat #mxLat #mnLon #mxLon in
  let w := mkWindow #W #H in
  latLonToScreen b w #mxLat #mnLon = {| x := #0; y := #0 |}
  /\ latLonToScreen b w #mnLat #mxLon = {| x := #W; y := #H |}
  /\ (forall la lo lo' : R, (lo < lo')%R ->
        exists px px',
          x (latLonToScreen b w #la #lo) = #px
          /\ x (latLonToScreen b w #la #lo') = #px' /\ (px < px')%R)
  /\ (forall la la' lo : R, (la < la')%R ->
        exists py py',
          y (latLonToScreen b w #la #lo) = #py
          /\ y (latLonToScreen b w #la' #lo) = #py' /\ (py' < py)%R).
Proof.
  intros HLat HLon HW HH b w. subst b w.
  split; [| split; [| split]].
  - rewrite latLonToScreen_fin by lra. f_equal; f_equal; field; lra.
  - rewrite latLonToScreen_fin by lra. f_equal; f_equal; field; lra.
  - intros la lo lo' Hlt. rewrite !latLonToScreen_fin by lra.
    eexists _, _. split; [reflexivity |]. split; [reflexivity |].
    apply Rmult_lt_compat_r; [exact HW |]. now apply fraction_increasing.
  - intros la la' lo Hlt. rewrite !latLonToScreen_fin by lra.
    eexists _, _. split; [reflexivity |]. split; [reflexivity |].
    apply Rmult_lt_compat_r; [exact HH |].
    pose proof (fraction_increasing la la' mnLat mxLat HLat Hlt). lra.
Qed.

Lemma projection_orientation_witness :
  let b := mkBounds #51 #52 #(-1) #1 in
  let w := mkWindow #800 #480 in
  latLonToScreen b w #52 #(-1) = {| x := #0; y := #0 |}
  /\ latLonToScreen b w #51 #1 = {| x := #800; y := #480 |}
  /\ (forall la lo lo' : R, (lo < lo')%R ->
        exists px px',
          x (latLonToScreen b w #la #lo) = #px
          /\ x (latLonToScreen b w #la #lo') = #px' /\ (px < px')%R)
  /\ (forall la la' lo : R, (la < la')%R ->
        exists py py',
          y (latLonToScreen b w #la #lo) = #py
          /\ y (latLonToScreen b w #la' #lo) = #py' /\ (py' < py)%R).
Proof. apply (projection_orientation 51 52 (-1) 1 800 480); lra. Defined.

Lemma inf_times_nonfinite (positive : bool) (s : sign) :
  ~ isFinite (inf_times positive s).
Proof. destruct s, positive; simpl; tauto. Qed.

Lemma div_zero_nonfinite (a : R) : ~ isFinite (#a / #0).
Proof.
  unfold div. destruct (Req_dec_T 0 0); [| contradiction].
  apply inf_times_nonfinite.
Qed.

Lemma mul_nonfinite_l (u v : num) : ~ isFinite u -> ~ isFinite (u * v).
Proof.
  destruct u as [a| | |]; [simpl; tauto | | |]; intros _; unfold mul;
    destruct v; simpl; try tauto; apply inf_times_nonfinite.
Qed.

Lemma sub_nonfinite_r (a : R) (v : num) : ~ isFinite v -> ~ isFinite (#a - v).
Proof. destruct v; unfold sub, add; simpl; tauto. Qed.

(** X3. A region without extent makes the projection useless rather than
    failing: when minLon = maxLon no finite point has a finite x, and when
    minLat = maxLat none has a finite y, whatever the size of the window. *)
Theorem projection_degenerate_region (mLat mLon other la lo : R) (w : Window) :
  ~ isFinite (x (latLonToScreen (mkBounds #other #mLat #mLon #mLon) w #la #lo))
  /\ ~ isFinite
         (y (latLonToScreen (mkBounds #mLat #mLat #other #mLon) w #la #lo)).
Proof.
  unfold latLonToScreen; simpl. rewrite !sub_fin.
  replace (mLon - mLon)%R with 0%R by ring.
  replace (mLat - mLat)%R with 0%R by ring.
  split.
  - apply mul_nonfinite_l, div_zero_nonfinite.
  - apply mul_nonfinite_l, sub_nonfinite_r, div_zero_nonfinite.
Qed.

(** ** Exit point *)

(** X5. From any finite start, inside the region or not, and for any
    finite direction components [dLat] and [dLon] computed from the heading,
    both exit coordinates are finite numbers exactly when at least one edge
    of the region is crossed in the forward direction along them. *)
Theorem exit_finite_iff_edge_ahead
    (mnLat mxLat mnLon mxLon sLat sLon dLat dLon : R) :
  let ex :=
    exitAlong (mkBounds #mnLat #mxLat #mnLon #mxLon) #sLat #sLon #dLat #dLon in
  isFinite (exitLat ex) /\ isFinite (exitLon ex)
  <-> ~ noForwardIntersection mnLat mxLat mnLon mxLon sLat sLon dLat dLon.
Proof.
  intros ex. subst ex. unfold exitAlong. cbn [exitLat exitLon]. split.
  - intros [Hlat _] Hno.
    rewrite (nearestEdgeT_none _ _ _ _ _ _ _ _ Hno) in Hlat.
    revert Hlat. apply add_fin_nonfinite, mul_fin_pinf.
  - intros Hsome. apply nearestEdgeT_some in Hsome.
    destruct (nearestEdgeT _ _ _ _ _) as [t | | |]; try contradiction.
    fin_eval. split; exact I.
Qed.

(** ** Curved paths *)

Lemma radians_quarter (h : R) :
  radians (h + 90) = (radians h + Rtrigo1.PI / 2)%R.
Proof. unfold radians. field. Qed.

Lemma north_quarter (h : R) : north (h + 90) = (- east h)%R.
Proof.
  unfold north, east. rewrite radians_quarter, cos_plus, cos_PI2, sin_PI2. ring.
Qed.

Lemma east_quarter (h : R) : east (h + 90) = north h.
Proof.
  unfold north, east. rewrite radians_quarter, sin_plus, cos_PI2, sin_PI2. ring.
Qed.

Lemma unit_direction (h : R) : (north h * north h + east h * east h = 1)%R.
Proof.
  unfold north, east. pose proof (sin2_cos2 (radians h)) as Hu.
  unfold Rsqr in Hu. lra.
Qed.

(** X6. When the first draw does not exceed 0.6 the path is curved, three
    draws are consumed, and for finite end points the control point is the
    midpoint of the journey moved sideways: the offset is perpendicular to
    the heading, and its length is between 10% and 25% of the length of the
    journey (for a second draw in [0, 1)). *)
Theorem curve_control_offset (rand : nat -> num) (k : nat)
    (sLat sLon eLat eLon h r0 r1 : R) (r2 : num) :
  rand k = #r0 -> (r0 <= 0.6)%R ->
  rand (S k) = #r1 -> (0 <= r1 < 1)%R ->
  rand (S (S k)) = r2 ->
  let J := R_sqrt.sqrt ((eLat - sLat) * (eLat - sLat)
                        + (eLon - sLon) * (eLon - sLon)) in
  exists cLat cLon m,
    generateCurveControl rand k #sLat #sLon #eLat #eLon #h
    = (Some {| lat := #cLat; lon := #cLon |}, S (S (S k)))
    /\ (0.1 * J <= m <= 0.25 * J)%R
    /\ let dLat := (cLat - (sLat + eLat) / 2)%R in
       let dLon := (cLon - (sLon + eLon) / 2)%R in
       (dLat * dLat + dLon * dLon = m * m)%R
       /\ (dLat * north h + dLon * east h = 0)%R.
Proof.
  intros Hr0 Hle Hr1 Hin Hr2.
  assert (Hsq : (0 <= (eLat - sLat) * (eLat - sLat)
                     + (eLon - sLon) * (eLon - sLon))%R).
  { pose proof (Rle_0_sqr (eLat - sLat)) as Ha.
    pose proof (Rle_0_sqr (eLon - sLon)) as Ho. unfold Rsqr in Ha, Ho. lra. }
  intros J.
  assert (HJ : (0 <= J)%R) by apply sqrt_pos.
  set (m := (J * (0.1 + r1 * 0.15))%R).
  set (sg := if gt r2 #0.5 then 1%R else (-1)%R).
  exists ((sLat + eLat) / 2 + north (h + 90) * m * sg)%R,
         ((sLon + eLon) / 2 + east (h + 90) * m * sg)%R, m.
  split; [| split].
  - unfold generateCurveControl, ENABLE_CURVES. cbn [negb].
    rewrite Hr0, Hr1, Hr2.
    rewrite gt_fin_false by exact Hle. rewrite (add_fin h 90).
    destruct (heading_components (h + 90)) as [-> ->].
    fin_eval. rewrite sqrt_fin by exact Hsq. fold J.
    replace (if gt r2 #0.5 then #1 else #(-1)) with #sg
      by (unfold sg; now destruct (gt r2 #0.5)).
    fin_eval. reflexivity.
  - unfold m. split; nra.
  - simpl. rewrite north_quarter, east_quarter.
    pose proof (unit_direction h) as Hu.
    assert (Hsg : (sg * sg = 1)%R) by (unfold sg; destruct (gt r2 #0.5); ring).
    split.
    + transitivity ((north h * north h + east h * east h) * (m * m) * (sg * sg))%R;
        [ring |]. rewrite Hu, Hsg. ring.
    + ring.
Qed.

Lemma curve_control_offset_witness :
  let rand := fun n : nat =>
    match n with 0%nat => #0.3 | 1%nat => #0.5 | _ => #0.9 end in
  let J := R_sqrt.sqrt ((51.5 - 51.5) * (51.5 - 51.5) + (1 - 0) * (1 - 0)) in
  exists cLat cLon m,
    generateCurveControl rand 0 #51.5 #0 #51.5 #1 #90
    = (Some {| lat := #cLat; lon := #cLon |}, 3%nat)
    /\ (0.1 * J <= m <= 0.25 * J)%R
    /\ let dLat := (cLat - (51.5 + 51.5) / 2)%R in
       let dLon := (cLon - (0 + 1) / 2)%R in
       (dLat * dLat + dLon * dLon = m * m)%R
       /\ (dLat * north 90 + dLon * east 90 = 0)%R.
Proof.
  apply (curve_control_offset _ 0 51.5 0 51.5 1 90 0.3 0.5 #0.9);
    try reflexivity; lra.
Defined.

(** X8. A curved path stays within the span of its three control values:
    for a parameter in [0, 1] the quadratic Bezier value lies between any
    lower and upper bound of the start, control and end values. *)
Theorem bezier_within_hull (t p0 p1 p2 lo hi : R) :
  (0 <= t <= 1)%R ->
  (lo <= p0 <= hi)%R -> (lo <= p1 <= hi)%R -> (lo <= p2 <= hi)%R ->
  exists v, quadraticBezier #t #p0 #p1 #p2 = #v /\ (lo <= v <= hi)%R.
Proof.
  intros Ht H0 H1 H2. rewrite quadraticBezier_fin. eexists. split; [reflexivity |].
  assert (W0 : (0 <= (1 - t) * (1 - t))%R) by nra.
  assert (W1 : (0 <= 2 * (1 - t) * t)%R) by nra.
  assert (W2 : (0 <= t * t)%R) by nra.
  assert (0 <= (1 - t) * (1 - t) * (p0 - lo))%R by (apply Rmult_le_pos; lra).
  assert (0 <= 2 * (1 - t) * t * (p1 - lo))%R by (apply Rmult_le_pos; lra).
  assert (0 <= t * t * (p2 - lo))%R by (apply Rmult_le_pos; lra).
  assert (0 <= (1 - t) * (1 - t) * (hi - p0))%R by (apply Rmult_le_pos; lra).
  assert (0 <= 2 * (1 - t) * t * (hi - p1))%R by (apply Rmult_le_pos; lra).
  assert (0 <= t * t * (hi - p2))%R by (apply Rmult_le_pos; lra).
  split; nra.
Qed.

Lemma bezier_within_hull_witness :
  exists v, quadraticBezier #0.25 #51.5 #51.9 #51.5 = #v
            /\ (51.5 <= v <= 51.9)%R.
Proof. apply (bezier_within_hull 0.25 51.5 51.9 51.5 51.5 51.9); lra. Defined.

(** The path fields of a newly planned plane. *)
Lemma newPlane_path o b w e pd pos :
  let s := (newPlane o b w e pd pos).1 in
  let ex := calculateExitPoint b (lat pos) (lon pos) (PlaneData.heading pd) in
  Plane.startLat s = lat pos /\ Plane.startLon s = lon pos
  /\ Plane.endLat s = exitLat ex /\ Plane.endLon s = exitLon ex
  /\ Plane.curveControl s
     = (generateCurveControl (random o) (randCalls e) (lat pos) (lon pos)
          (exitLat ex) (exitLon ex) (PlaneData.heading pd)).1.
Proof.
  unfold newPlane. destruct (generateCurveControl _ _ _ _ _ _ _).
  simpl. repeat split.
Qed.

(** X9. A plane planned on a straight path from a start strictly inside
    the region never leaves the closed region: for every progress in [0, 1]
    its position on the path is finite and within the bounds. *)
Theorem straight_flight_stays_inside o w e pd
    (mnLat mxLat mnLon mxLon sLat sLon h : R) :
  (mnLat < sLat < mxLat)%R -> (mnLon < sLon < mxLon)%R ->
  PlaneData.heading pd = #h ->
  gt (random o (randCalls e)) #0.6 = true ->
  let b := mkBounds #mnLat #mxLat #mnLon #mxLon in
  let s := (newPlane o b w e pd {| lat := #sLat; lon := #sLon |}).1 in
  forall t, (0 <= t <= 1)%R ->
    exists la lo,
      pathAt s #t = {| lat := #la; lon := #lo |}
      /\ (mnLat <= la <= mxLat)%R /\ (mnLon <= lo <= mxLon)%R.
Proof.
  intros Hlat Hlon Hh Hdraw b s t Ht.
  destruct (newPlane_path o b w e pd {| lat := #sLat; lon := #sLon |})
    as (H1 & H2 & H3 & H4 & H5).
  fold s in H1, H2, H3, H4, H5. cbn [lat lon] in *. rewrite Hh in *.
  destruct (calculateExitPoint_inside mnLat mxLat mnLon mxLon sLat sLon h
              Hlat Hlon) as (u & (Hu & Hin1 & Hin2 & _) & Hex).
  fold b in Hex. rewrite Hex in *. cbn [exitLat exitLon] in *.
  unfold generateCurveControl in H5. simpl in H5. rewrite Hdraw in H5.
  unfold pathAt. rewrite H5, H1, H2, H3, H4. rewrite !lerp_fin.
  eexists _, _. split; [reflexivity |]. split; split; nra.
Qed.

Lemma straight_flight_stays_inside_witness :
  let s := (newPlane demoOracle demoBounds demoWindow emptyEngine demoStalled
              {| lat := #51.5; lon := #0 |}).1 in
  exists la lo,
    pathAt s #0.5 = {| lat := #la; lon := #lo |}
    /\ (51 <= la <= 52)%R /\ (-1 <= lo <= 1)%R.
Proof.
  apply (straight_flight_stays_inside demoOracle demoWindow emptyEngine
           demoStalled 51 52 (-1) 1 51.5 0 90); try lra; try reflexivity.
  apply gt_fin_true. lra.
Defined.

(** ** Trails *)

(** X10. For a progress in [0, 1] the trail start is a finite number
    between 0 and the progress, so the trail never starts ahead of the
    plane, and it does not move back as the plane advances. *)
Theorem trail_start_behind_plane (p q : R) :
  (0 <= p <= q)%R -> (q <= 1)%R ->
  exists tp tq,
    trailStartProgress #p = #tp /\ trailStartProgress #q = #tq
    /\ (0 <= tp <= p)%R /\ (0 <= tq <= q)%R /\ (tp <= tq)%R.
Proof.
  intros [Hp Hpq] Hq.
  destruct (Rle_dec p 0.6) as [Hlp | Hlp]; destruct (Rle_dec q 0.6) as [Hlq | Hlq].
  - rewrite !trailStartProgress_low by assumption.
    eexists _, _. repeat split; lra.
  - rewrite trailStartProgress_low, trailStartProgress_high by lra.
    eexists _, _. split; [reflexivity |]. split; [reflexivity |].
    assert (0 <= (q - 0.6) / 0.4 <= 1)%R by (split; lra).
    repeat split; nra.
  - lra.
  - rewrite !trailStartProgress_high by lra.
    eexists _, _. split; [reflexivity |]. split; [reflexivity |].
    assert (0 <= (p - 0.6) / 0.4 <= 1)%R by (split; lra).
    assert (0 <= (q - 0.6) / 0.4 <= 1)%R by (split; lra).
    assert ((p - 0.6) / 0.4 <= (q - 0.6) / 0.4)%R by lra.
    repeat split; nra.
Qed.

Lemma trail_start_behind_plane_witness :
  exists tp tq,
    trailStartProgress #0.7 = #tp /\ trailStartProgress #0.9 = #tq
    /\ (0 <= tp <= 0.7)%R /\ (0 <= tq <= 0.9)%R /\ (tp <= tq)%R.
Proof. apply (trail_start_behind_plane 0.7 0.9); lra. Defined.

(** ** One pass of [animate] *)

(** X11. After a pass of [animate] that is not throttled no completed
    plane is left: every plane of the registry is a plane that was tracked
    before, advanced by this pass, with a stored progress that fails the
    completion test; the pass adds no plane, so the registry cannot grow. *)
Theorem animate_leaves_no_completed b w (t : num) (e : Engine) :
  lt (t - lastAnimateTime e) FRAME_INTERVAL = false ->
  (forall (i : string) s',
      planes (animate b w t e) !! i = Some s' ->
      ge (Plane.progress s') #1 = false
      /\ exists s, planes e !! i = Some s /\ s' = advance b w t s)
  /\ dom (planes (animate b w t e)) ⊆ dom (planes e)
  /\ (size (planes (animate b w t e)) <= size (planes e))%nat.
Proof.
  intros Hrun.
  assert (Hone : forall (i : string) s',
             planes (animate b w t e) !! i = Some s' ->
             ge (Plane.progress s') #1 = false
             /\ exists s, planes e !! i = Some s /\ s' = advance b w t s).
  { intros i s' Hs'. rewrite animate_lookup in Hs' by exact Hrun.
    destruct (planes e !! i) as [s |] eqn:Hs; [| discriminate].
    destruct (ge (progressAt t s) #1) eqn:Hge; [discriminate |].
    injection Hs' as <-. split; [| eauto].
    destruct (advance_position b w t s) as [-> _]. exact Hge. }
  assert (Hdom : dom (planes (animate b w t e)) ⊆ dom (planes e)).
  { intros i [s' Hs']%elem_of_dom.
    destruct (Hone i s' Hs') as (_ & s & Hs & _). apply elem_of_dom. eauto. }
  split; [exact Hone |]. split; [exact Hdom |].
  rewrite <- !size_dom. now apply subseteq_size.
Qed.

Lemma animate_leaves_no_completed_witness :
  (forall (i : string) s',
      planes (animate demoBounds demoWindow #500 demoEngine) !! i = Some s' ->
      ge (Plane.progress s') #1 = false
      /\ exists s, planes demoEngine !! i = Some s
                   /\ s' = advance demoBounds demoWindow #500 s)
  /\ dom (planes (animate demoBounds demoWindow #500 demoEngine))
     ⊆ dom (planes demoEngine)
  /\ (size (planes (animate demoBounds demoWindow #500 demoEngine))
      <= size (planes demoEngine))%nat.
Proof.
  apply (animate_leaves_no_completed demoBounds demoWindow #500 demoEngine).
  unfold FRAME_INTERVAL, TARGET_FPS. simpl. fin_eval. apply lt_fin_false. lra.
Defined.

Lemma frame_interval_value : FRAME_INTERVAL = #(1000 / 30).
Proof. unfold FRAME_INTERVAL, TARGET_FPS. now rewrite div_fin by lra. Qed.

Lemma rem_fin_pos (a b : R) :
  (0 <= a)%R -> (0 < b)%R ->
  rem #a #b = #(a - b * IZR (Int_part (a / b)))
  /\ (0 <= a - b * IZR (Int_part (a / b)) < b)%R.
Proof.
  intros Ha Hb. unfold rem, trunc.
  destruct (Req_dec_T b 0) as [-> | _]; [lra |].
  assert (Hq : (0 <= a / b)%R).
  { unfold Rdiv. apply Rmult_le_pos; [exact Ha |].
    left. now apply Rinv_0_lt_compat. }
  destruct (Rle_dec 0 (a / b)) as [_ | Hn]; [| contradiction].
  split; [reflexivity |].
  destruct (base_Int_part (a / b)) as [Hlo Hhi].
  assert (Hab : (a = b * (a / b))%R) by (field; lra).
  set (q := (a / b)%R) in *. set (n := IZR (Int_part q)) in *.
  clearbody q n. subst a. split; nra.
Qed.

(** X12. Frames stay on a fixed grid: after a pass that is not throttled
    the new [lastAnimateTime] is the old one moved forward by a whole
    number (at least one) of frame intervals, is not later than the current
    time, and is less than one frame interval behind it. *)
Theorem frame_throttle_grid b w (t l : R) (e : Engine) :
  lastAnimateTime e = #l -> (1000 / 30 <= t - l)%R ->
  exists (l' : R) (n : Z),
    lastAnimateTime (animate b w #t e) = #l'
    /\ (1 <= n)%Z /\ l' = (l + IZR n * (1000 / 30))%R
    /\ (l' <= t)%R /\ (t - l' < 1000 / 30)%R.
Proof.
  intros Hl Hel. unfold animate. rewrite Hl, frame_interval_value, sub_fin.
  rewrite lt_fin_false by exact Hel. simpl.
  destruct (rem_fin_pos (t - l) (1000 / 30)) as [-> Hrem]; [lra | lra |].
  rewrite sub_fin.
  set (n := Int_part ((t - l) / (1000 / 30))) in *.
  exists (t - (t - l - 1000 / 30 * IZR n))%R, n.
  split; [reflexivity |]. split; [| split; [ring | lra]].
  assert (Hn : (0 < IZR n)%R) by nra.
  apply (lt_IZR 0) in Hn. lia.
Qed.

Lemma frame_throttle_grid_witness :
  exists (l' : R) (n : Z),
    lastAnimateTime (animate demoBounds demoWindow #500 demoEngine) = #l'
    /\ (1 <= n)%Z /\ l' = (0 + IZR n * (1000 / 30))%R
    /\ (l' <= 500)%R /\ (500 - l' < 1000 / 30)%R.
Proof.
  apply (frame_throttle_grid demoBounds demoWindow 500 0 demoEngine);
    [reflexivity | lra].
Defined.

(** ** Invariants of the registry *)

(** A property of the entries of the registry that relabelling keeps and
    that every newly planned plane has under its own id is kept over the
    whole registry by [fetchFlightData]. *)
Section FetchInvariant.
Variable P : string -> Plane.state -> Prop.
Variables (o : Oracle) (b : Bounds) (w : Window).
Hypothesis relabel : forall i c k s, P i s -> P i (Plane.setLabel c k s).
Hypothesis planned :
  forall e pd pos, P (PlaneData.id pd) (newPlane o b w e pd pos).1.

Lemma processPlane_invariant e pd e' :
  processPlane o b w e pd = Some e' ->
  map_Forall P (planes e) -> map_Forall P (planes e').
Proof.
  unfold processPlane. intros Hp Hall.
  destruct (planes e !! PlaneData.id pd) as [s |] eqn:Hs.
  - injection Hp as <-. simpl. apply map_Forall_insert_2; [| exact Hall].
    apply relabel. exact (Hall _ _ Hs).
  - destruct (PlaneData.position pd) as [pos |]; [| discriminate].
    pose proof (planned e pd pos) as Hnew.
    destruct (newPlane o b w e pd pos) as [s rc]. injection Hp as <-. simpl.
    now apply map_Forall_insert_2.
Qed.

Lemma processPlanes_invariant l : forall e,
  map_Forall P (planes e) ->
  map_Forall P (planes (processPlanes o b w e l).1).
Proof.
  induction l as [| pd l IH]; intros e Hall; simpl; [exact Hall |].
  destruct (processPlane o b w e pd) as [e' |] eqn:Hp; [| exact Hall].
  apply IH. now apply processPlane_invariant with e pd.
Qed.

Lemma fetchFlightData_invariant r e :
  map_Forall P (planes e) ->
  map_Forall P (planes (fetchFlightData o b w r e)).
Proof.
  intros Hall. rewrite fetchFlightData_planes. destruct r as [| | l]; try exact Hall.
  apply processPlanes_invariant. now destruct (isConnected e).
Qed.
End FetchInvariant.

(** A property that one pass of the loop keeps is kept by [animate]. *)
Lemma animate_invariant (P : string -> Plane.state -> Prop) b w (t : num) e :
  (forall i s, P i s -> P i (advance b w t s)) ->
  map_Forall P (planes e) ->
  map_Forall P (planes (animate b w t e)).
Proof.
  intros Hstep Hall. unfold animate.
  destruct (lt (t - lastAnimateTime e) FRAME_INTERVAL) eqn:Hthr; [exact Hall |].
  intros i s' Hs'.
  assert (Hl : planes (animate b w t e) !! i = Some s')
    by (unfold animate; now rewrite Hthr).
  rewrite animate_lookup in Hl by exact Hthr.
  destruct (planes e !! i) as [s |] eqn:Hs; [| discriminate].
  destruct (ge (progressAt t s) #1); [discriminate |].
  injection Hl as <-. apply Hstep. exact (Hall _ _ Hs).
Qed.

Lemma advance_trail_length b w (t : num) s :
  (length (Plane.trailPoints s) <= 50)%nat ->
  (1 <= length (Plane.trailPoints s))%nat ->
  (1 <= length (Plane.trailPoints (advance b w t s)) <= 50)%nat.
Proof.
  intros Hmax Hmin. unfold advance.
  destruct (_ || _); simpl; [| lia].
  rewrite length_app. simpl.
  destruct (50 <? length (Plane.trailPoints s) + 1)%nat eqn:Hfull.
  - apply Nat.ltb_lt in Hfull.
    destruct (Plane.trailPoints s ++ _) as [| p rest] eqn:Happ.
    + apply (f_equal length) in Happ. rewrite length_app in Happ.
      simpl in Happ. lia.
    + apply (f_equal length) in Happ. rewrite length_app in Happ.
      simpl in *. lia.
  - apply Nat.ltb_ge in Hfull. rewrite length_app. simpl. lia.
Qed.

(** X13. The trail history of a plane is bounded: starting from the empty
    registry, after any pass of [animate] and any response handled by
    [fetchFlightData] every tracked plane holds between 1 and 50 trail
    points. *)
Theorem trail_history_bounded o b w :
  trailBounded (planes initialEngine)
  /\ (forall (t : num) e,
        trailBounded (planes e) -> trailBounded (planes (animate b w t e)))
  /\ (forall r e,
        trailBounded (planes e) ->
        trailBounded (planes (fetchFlightData o b w r e))).
Proof.
  unfold trailBounded. split; [apply map_Forall_empty |]. split.
  - intros t e. apply animate_invariant.
    intros i s [Hmin Hmax]. now apply advance_trail_length.
  - intros r e. apply fetchFlightData_invariant.
    + intros i c k s Hs. exact Hs.
    + intros e' pd pos. unfold newPlane.
      destruct (generateCurveControl _ _ _ _ _ _ _). simpl. lia.
Qed.

(** ** The loop over the samples *)

Lemma processPlane_connection o b w e pd e' :
  processPlane o b w e pd = Some e' ->
  isConnected e' = isConnected e /\ overlay e' = overlay e
  /\ lastAnimateTime e' = lastAnimateTime e.
Proof.
  unfold processPlane. intros Hp.
  destruct (planes e !! PlaneData.id pd).
  - injection Hp as <-. repeat split.
  - destruct (PlaneData.position pd) as [pos |]; [| discriminate].
    destruct (newPlane o b w e pd pos). injection Hp as <-. repeat split.
Qed.

Lemma processPlanes_connection o b w l : forall e,
  let e' := (processPlanes o b w e l).1 in
  isConnected e' = isConnected e /\ overlay e' = overlay e
  /\ lastAnimateTime e' = lastAnimateTime e.
Proof.
  induction l as [| pd l IH]; intros e; simpl; [repeat split |].
  destruct (processPlane o b w e pd) as [e1 |] eqn:Hp; [| repeat split].
  destruct (processPlane_connection o b w e pd e1 Hp) as (<- & <- & <-).
  apply IH.
Qed.

(** A sample with a position never raises. *)
Lemma processPlane_hasPosition o b w e pd :
  hasPosition pd -> exists e', processPlane o b w e pd = Some e'.
Proof.
  unfold hasPosition, processPlane. intros Hpos.
  destruct (planes e !! PlaneData.id pd); [eauto |].
  destruct (PlaneData.position pd) as [pos |]; [| contradiction].
  destruct (newPlane o b w e pd pos). eauto.
Qed.

Lemma processPlanes_no_throw o b w l : forall e,
  Forall hasPosition l -> (processPlanes o b w e l).2 = false.
Proof.
  induction l as [| pd l IH]; intros e Hall; simpl; [reflexivity |].
  apply Forall_cons in Hall as [Hpd Hall].
  destruct (processPlane_hasPosition o b w e pd Hpd) as (e' & ->).
  now apply IH.
Qed.

Lemma processPlanes_app o b w l1 l2 e :
  processPlanes o b w e (l1 ++ l2)
  = if (processPlanes o b w e l1).2 then processPlanes o b w e l1
    else processPlanes o b w (processPlanes o b w e l1).1 l2.
Proof.
  revert e. induction l1 as [| pd l1 IH]; intros e; simpl; [reflexivity |].
  destruct (processPlane o b w e pd) as [e' |]; [apply IH | reflexivity].
Qed.

(** X14. The overlay follows the connection: if it is hidden exactly when
    the feed is connected (as when the page starts, disconnected and
    showing "Connecting..."), this remains so after every response handled
    and every pass of [animate]; a failed or error response leaves the page
    disconnected with the overlay visible, and a response whose samples all
    carry a position leaves it connected with the overlay hidden. *)
Theorem overlay_follows_connection o b w (r : Response) (t : num) (e : Engine) :
  overlayTracksConnection e ->
  overlayTracksConnection initialEngine
  /\ overlayTracksConnection (fetchFlightData o b w r e)
  /\ overlayTracksConnection (animate b w t e)
  /\ (r = FetchFailed \/ r = StatusError ->
      isConnected (fetchFlightData o b w r e) = false
      /\ overlay (fetchFlightData o b w r e) <> None)
  /\ (forall l, r = Planes l -> Forall hasPosition l ->
      isConnected (fetchFlightData o b w r e) = true
      /\ overlay (fetchFlightData o b w r e) = None).
Proof.
  unfold overlayTracksConnection. intros Hinv.
  assert (Hloop : forall l,
            let e0 := if isConnected e then e else withConnection true None e in
            let res := processPlanes o b w e0 l in
            isConnected res.1 = true /\ overlay res.1 = None).
  { intros l e0 res. subst res.
    destruct (processPlanes_connection o b w l e0) as (-> & -> & _).
    subst e0. destruct (isConnected e) eqn:Hc; [| split; reflexivity].
    split; [exact Hc | now apply Hinv]. }
  split; [split; discriminate |].
  split; [| split; [| split]].
  - destruct r as [| | l]; simpl.
    + unfold onFetchError. destruct (isConnected e) eqn:Hc; simpl.
      * split; discriminate.
      * now rewrite Hc.
    + destruct (isConnected e) eqn:Hc; simpl.
      * split; discriminate.
      * now rewrite Hc.
    + specialize (Hloop l). simpl in Hloop.
      destruct (processPlanes _ _ _ _ l) as [e' threw]. simpl in Hloop.
      destruct Hloop as [Hc Ho]. destruct threw.
      * unfold onFetchError. rewrite Hc. simpl. split; discriminate.
      * rewrite Hc, Ho. split; reflexivity.
  - unfold animate. now destruct (lt _ _).
  - intros [-> | ->]; simpl.
    + unfold onFetchError. destruct (isConnected e) eqn:Hc; simpl.
      * split; [reflexivity | discriminate].
      * split; [exact Hc |]. intros Ho. apply Hinv in Ho. congruence.
    + destruct (isConnected e) eqn:Hc; simpl.
      * split; [reflexivity | discriminate].
      * split; [exact Hc |]. intros Ho. apply Hinv in Ho. congruence.
  - intros l -> Hall. simpl. specialize (Hloop l). simpl in Hloop.
    pose proof (processPlanes_no_throw o b w l
                  (if isConnected e then e else withConnection true None e)
                  Hall) as Hok.
    destruct (processPlanes _ _ _ _ l) as [e' threw]. simpl in *.
    subst threw. exact Hloop.
Qed.

Lemma overlay_follows_connection_witness :
  overlayTracksConnection initialEngine
  /\ overlayTracksConnection
       (fetchFlightData demoOracle demoBounds demoWindow StatusError demoEngine)
  /\ overlayTracksConnection (animate demoBounds demoWindow #500 demoEngine)
  /\ (StatusError = FetchFailed \/ StatusError = StatusError ->
      isConnected
        (fetchFlightData demoOracle demoBounds demoWindow StatusError demoEngine)
      = false
      /\ overlay
           (fetchFlightData demoOracle demoBounds demoWindow StatusError
              demoEngine) <> None)
  /\ (forall l, StatusError = Planes l -> Forall hasPosition l ->
      isConnected
        (fetchFlightData demoOracle demoBounds demoWindow StatusError demoEngine)
      = true
      /\ overlay
           (fetchFlightData demoOracle demoBounds demoWindow StatusError
              demoEngine) = None).
Proof.
  apply (overlay_follows_connection demoOracle demoBounds demoWindow
           StatusError #500 demoEngine).
  split; reflexivity.
Defined.

(** X15. A new sample without position is not skipped: reading its
    position raises, which ends the loop.  The samples before it have been
    processed, the samples after it are ignored for this response, and the
    page is flagged as disconnected with the overlay "Reconnecting...". *)
Theorem sample_without_position_ends_loop o b w e
    (l1 l2 : list PlaneData.t) (bad : PlaneData.t) :
  Forall hasPosition l1 ->
  PlaneData.position bad = None ->
  planes e !! PlaneData.id bad = None ->
  PlaneData.id bad ∉ PlaneData.id <$> l1 ->
  let e' := fetchFlightData o b w (Planes (l1 ++ bad :: l2)) e in
  planes e' = planes (fetchFlightData o b w (Planes l1) e)
  /\ isConnected e' = false
  /\ overlay e' = Some "Reconnecting..."%string.
Proof.
  intros Hall Hbad Hnew Hni e'. subst e'.
  set (e0 := if isConnected e then e else withConnection true None e).
  assert (Hc0 : isConnected e0 = true)
    by (subst e0; now destruct (isConnected e) eqn:Hc).
  assert (Hp0 : planes e0 = planes e) by (subst e0; now destruct (isConnected e)).
  pose proof (processPlanes_no_throw o b w l1 e0 Hall) as Hok.
  destruct (processPlanes_connection o b w l1 e0) as (Hc1 & _).
  pose proof (processPlanes_absent o b w l1 e0 _ Hni) as Hab.
  rewrite Hp0, Hnew in Hab.
  assert (Hrun : processPlanes o b w e0 (l1 ++ bad :: l2)
                 = ((processPlanes o b w e0 l1).1, true)).
  { rewrite processPlanes_app, Hok. simpl. unfold processPlane.
    now rewrite Hab, Hbad. }
  unfold fetchFlightData. fold e0. rewrite Hrun.
  destruct (processPlanes o b w e0 l1) as [e1 threw]. simpl in *. subst threw.
  unfold onFetchError. rewrite Hc1, Hc0. simpl. repeat split.
Qed.

Lemma sample_without_position_ends_loop_witness :
  let bad := PlaneData.mk "a1b2c3" "EZY81" "Unknown" None #90 None "#ff6b6b" in
  let e' := fetchFlightData demoOracle demoBounds demoWindow
              (Planes ([demoUpdate] ++ bad :: [demoStalled])) demoEngine in
  planes e'
  = planes (fetchFlightData demoOracle demoBounds demoWindow
              (Planes [demoUpdate]) demoEngine)
  /\ isConnected e' = false
  /\ overlay e' = Some "Reconnecting..."%string.
Proof.
  apply (sample_without_position_ends_loop demoOracle demoBounds demoWindow
           demoEngine [demoUpdate] [demoStalled]).
  - repeat constructor. discriminate.
  - reflexivity.
  - apply lookup_singleton_ne. discriminate.
  - intros Hin. apply list_elem_of_singleton in Hin. discriminate.
Defined.

(** X16. Delivering a sample twice is the same as delivering it once: the
    second copy finds the plane tracked with the very label it carries, so
    the engine (registry, draws and clock readings consumed) is unchanged. *)
Theorem duplicate_sample_is_noop o b w e pd e' :
  processPlane o b w e pd = Some e' ->
  processPlane o b w e' pd = Some e'
  /\ forall l, processPlanes o b w e (pd :: pd :: l)
               = processPlanes o b w e (pd :: l).
Proof.
  intros Hp.
  assert (Hagain : processPlane o b w e' pd = Some e').
  { unfold processPlane in *.
    destruct (planes e !! PlaneData.id pd) as [s |] eqn:Hs.
    - injection Hp as <-. simpl. rewrite lookup_insert_eq.
      unfold withPlanes. simpl. now rewrite insert_insert_eq.
    - destruct (PlaneData.position pd) as [pos |]; [| discriminate].
      unfold newPlane in *.
      destruct (generateCurveControl _ _ _ _ _ _ _) as [cc rc].
      injection Hp as <-. simpl. rewrite lookup_insert_eq.
      unfold withPlanes. simpl. now rewrite insert_insert_eq. }
  split; [exact Hagain |].
  intros l. simpl. now rewrite Hp, Hagain.
Qed.

Lemma duplicate_sample_is_noop_witness :
  let e' := withPlanes
              (<["4ca7b1"%string := Plane.setLabel "RYR22" "Ireland" demoPlane]>
                 (planes demoEngine)) 0 0 demoEngine in
  processPlane demoOracle demoBounds demoWindow e' demoUpdate = Some e'
  /\ forall l, processPlanes demoOracle demoBounds demoWindow demoEngine
                 (demoUpdate :: demoUpdate :: l)
               = processPlanes demoOracle demoBounds demoWindow demoEngine
                   (demoUpdate :: l).
Proof.
  apply (duplicate_sample_is_noop demoOracle demoBounds demoWindow demoEngine
           demoUpdate).
  unfold processPlane. cbn [PlaneData.id demoUpdate].
  now rewrite demoPlane_tracked.
Defined.

(** X17. After a response whose samples all carry a position, every sample
    of the response is tracked, and every plane tracked before still is. *)
Theorem every_sample_tracked o b w e (l : list PlaneData.t) :
  Forall hasPosition l ->
  let e' := fetchFlightData o b w (Planes l) e in
  (forall pd, pd ∈ l -> is_Some (planes e' !! PlaneData.id pd))
  /\ dom (planes e) ⊆ dom (planes e').
Proof.
  intros Hall e'. subst e'. split.
  - rewrite fetchFlightData_planes.
    generalize (if isConnected e then e else withConnection true None e).
    induction l as [| pd0 l IH]; intros e0 pd Hin; [now apply elem_of_nil in Hin |].
    apply Forall_cons in Hall as [Hpd0 Hall]. simpl.
    destruct (processPlane_hasPosition o b w e0 pd0 Hpd0) as (e1 & He1).
    rewrite He1. apply elem_of_cons in Hin as [-> | Hin].
    + assert (Hin1 : is_Some (planes e1 !! PlaneData.id pd0)).
      { unfold processPlane in He1.
        destruct (planes e0 !! PlaneData.id pd0).
        - injection He1 as <-. simpl. rewrite lookup_insert_eq. eauto.
        - destruct (PlaneData.position pd0) as [pos |]; [| discriminate].
          destruct (newPlane o b w e0 pd0 pos). injection He1 as <-. simpl.
          rewrite lookup_insert_eq. eauto. }
      destruct Hin1 as [s Hs].
      destruct (processPlanes_keeps o b w l e1 _ s Hs) as (c & k & ->). eauto.
    + now apply IH.
  - intros i [s Hs]%elem_of_dom.
    destruct (fetchFlightData_keeps o b w (Planes l) e i s Hs) as (c & k & Hk).
    apply elem_of_dom. eauto.
Qed.

Lemma every_sample_tracked_witness :
  let e' := fetchFlightData demoOracle demoBounds demoWindow
              (Planes [demoUpdate; demoStalled]) demoEngine in
  (forall pd, pd ∈ [demoUpdate; demoStalled] ->
              is_Some (planes e' !! PlaneData.id pd))
  /\ dom (planes demoEngine) ⊆ dom (planes e').
Proof.
  apply (every_sample_tracked demoOracle demoBounds demoWindow demoEngine
           [demoUpdate; demoStalled]).
  repeat constructor; discriminate.
Defined.

(** X18. A positive reported speed is used as it is: for a start strictly
    inside a region of valid latitudes the stored duration is the finite
    positive number distance / speed / 3 * 1000, inversely proportional to
    the speed. *)
Theorem reported_speed_sets_duration o w e pd
    (mnLat mxLat mnLon mxLon sLat sLon h v : R) :
  (-90 <= mnLat)%R -> (mxLat <= 90)%R ->
  (mnLat < sLat < mxLat)%R -> (mnLon < sLon < mxLon)%R ->
  planes e !! PlaneData.id pd = None ->
  PlaneData.position pd = Some {| lat := #sLat; lon := #sLon |} ->
  PlaneData.heading pd = #h ->
  PlaneData.velocity_mps pd = Some #v -> (0 < v)%R ->
  let b := mkBounds #mnLat #mxLat #mnLon #mxLon in
  exists e' s dist d,
    processPlane o b w e pd = Some e'
    /\ planes e' !! PlaneData.id pd = Some s
    /\ distanceMeters (calculateExitPoint b #sLat #sLon #h) = #dist
    /\ Plane.duration s = #d
    /\ d = (dist / v / 3 * 1000)%R
    /\ (0 < d)%R.
Proof.
  intros Hs Hn Hlat Hlon Hnew Hpos Hh Hv Hvpos b.
  destruct (processPlane_new o b w e pd _ Hnew Hpos) as (e' & He' & Hin).
  destruct (exit_distance_pos mnLat mxLat mnLon mxLon sLat sLon h
              Hs Hn Hlat Hlon) as (dist & Hdist & Hdpos).
  exists e', (newPlane o b w e pd {| lat := #sLat; lon := #sLon |}).1,
    dist, (dist / v / 3 * 1000)%R.
  repeat split; try assumption.
  - rewrite newPlane_duration. subst b. cbn [lat lon]. rewrite Hh, Hdist, Hv.
    unfold orDefault. rewrite truthy_fin by lra. fin_eval. reflexivity.
  - assert (0 < dist / v)%R by (apply Rdiv_lt_0_compat; lra). lra.
Qed.

Lemma reported_speed_sets_duration_witness :
  let pd := PlaneData.mk "a1b2c3" "BAW12" "United Kingdom"
              (Some {| lat := #51.5; lon := #0 |}) #90 (Some #230) "#4ecdc4" in
  exists e' s dist d,
    processPlane demoOracle demoBounds demoWindow emptyEngine pd = Some e'
    /\ planes e' !! PlaneData.id pd = Some s
    /\ distanceMeters (calculateExitPoint demoBounds #51.5 #0 #90) = #dist
    /\ Plane.duration s = #d
    /\ d = (dist / 230 / 3 * 1000)%R
    /\ (0 < d)%R.
Proof.
  apply (reported_speed_sets_duration demoOracle demoWindow emptyEngine
           _ 51 52 (-1) 1 51.5 0 90 230);
    try lra; reflexivity.
Defined.

(** ** The page *)

Lemma remove_elements (ids : list string) (els : gset string) :
  foldl (λ acc id, acc ∖ {[id]}) els ids = els ∖ list_to_set ids.
Proof.
  revert els. induction ids as [| i ids IH]; intros els; simpl.
  - now rewrite difference_empty_L.
  - now rewrite IH, difference_difference_l_L.
Qed.

Lemma removeAll_dom (ids : list string) (ps : gmap string Plane.state) :
  dom (removeAll ids ps) = dom ps ∖ list_to_set ids.
Proof.
  unfold removeAll. revert ps. induction ids as [| i ids IH]; intros ps; simpl.
  - now rewrite difference_empty_L.
  - now rewrite IH, dom_delete_L, difference_difference_l_L.
Qed.

(** X19. The page shows the tracked planes: if before a pass of [animate]
    that is not throttled every plane element belongs to a tracked plane,
    then after it the plane elements are exactly the tracked planes and the
    counter shows their number; a throttled pass leaves the page alone, and
    handling a response never leaves an element without its plane. *)
Theorem page_shows_tracked_planes o b w (t : num) (e : Engine) (pg : Page) :
  planeElements pg ⊆ dom (planes e) ->
  (lt (t - lastAnimateTime e) FRAME_INTERVAL = false ->
   planeElements (animatePage b w t e pg) = dom (planes (animate b w t e))
   /\ countText (animatePage b w t e pg) = size (planes (animate b w t e)))
  /\ (lt (t - lastAnimateTime e) FRAME_INTERVAL = true ->
      animatePage b w t e pg = pg)
  /\ (forall r, planeElements pg ⊆ dom (planes (fetchFlightData o b w r e))).
Proof.
  intros Hsub. split; [| split].
  - intros Hrun. unfold animatePage, animate. rewrite Hrun. simpl.
    split; [| reflexivity].
    rewrite remove_elements, removeAll_dom, dom_fmap_L.
    now rewrite (subseteq_union_1_L _ _ Hsub).
  - intros Hthr. unfold animatePage. now rewrite Hthr.
  - intros r i Hi. apply Hsub in Hi. apply elem_of_dom in Hi as [s Hs].
    destruct (fetchFlightData_keeps o b w r e i s Hs) as (c & k & Hk).
    apply elem_of_dom. eauto.
Qed.

Lemma page_shows_tracked_planes_witness :
  let pg := mkPage ∅ 0 in
  (lt (#500 - lastAnimateTime demoEngine) FRAME_INTERVAL = false ->
   planeElements (animatePage demoBounds demoWindow #500 demoEngine pg)
   = dom (planes (animate demoBounds demoWindow #500 demoEngine))
   /\ countText (animatePage demoBounds demoWindow #500 demoEngine pg)
      = size (planes (animate demoBounds demoWindow #500 demoEngine)))
  /\ (lt (#500 - lastAnimateTime demoEngine) FRAME_INTERVAL = true ->
      animatePage demoBounds demoWindow #500 demoEngine pg = pg)
  /\ (forall r,
        planeElements pg
        ⊆ dom (planes (fetchFlightData demoOracle demoBounds demoWindow r
                         demoEngine))).
Proof.
  apply (page_shows_tracked_planes demoOracle demoBounds demoWindow #500
           demoEngine (mkPage ∅ 0)).
  apply empty_subseteq.
Defined.

(** ** Easing *)

Lemma easeInOutSine_fin (t : R) :
  easeInOutSine #t = #(- (Rtrigo_def.cos (Rtrigo1.PI * t) - 1) / 2).
Proof.
  unfold easeInOutSine, PI. rewrite mul_fin. simpl cos. rewrite sub_fin.
  simpl neg. now rewrite div_fin by lra.
Qed.

(** X20. The sine easing maps every finite time to a finite value in
    [0, 1], fixes 0, one half and 1, and is symmetric about the middle of
    the journey: easing 1 - t gives one minus the easing of t. *)
Theorem easeInOutSine_shape (t : R) :
  (exists v, easeInOutSine #t = #v /\ (0 <= v <= 1)%R
             /\ easeInOutSine #(1 - t) = #(1 - v))
  /\ easeInOutSine #0 = #0
  /\ easeInOutSine #0.5 = #0.5
  /\ easeInOutSine #1 = #1.
Proof.
  split; [| split; [| split]].
  - eexists. split; [apply easeInOutSine_fin |].
    pose proof (COS_bound (Rtrigo1.PI * t)) as Hb. split; [lra |].
    rewrite easeInOutSine_fin. f_equal.
    replace (Rtrigo1.PI * (1 - t))%R with (Rtrigo1.PI - Rtrigo1.PI * t)%R by ring.
    rewrite cos_minus, cos_PI, sin_PI. lra.
  - rewrite easeInOutSine_fin. f_equal.
    replace (Rtrigo1.PI * 0)%R with 0%R by ring. rewrite cos_0. lra.
  - rewrite easeInOutSine_fin. f_equal.
    replace (Rtrigo1.PI * 0.5)%R with (Rtrigo1.PI / 2)%R by lra.
    rewrite cos_PI2. lra.
  - rewrite easeInOutSine_fin. f_equal.
    replace (Rtrigo1.PI * 1)%R with Rtrigo1.PI by ring. rewrite cos_PI. lra.
Qed.

(** ** Colours *)

Lemma hexDigit_range (c : ascii) (d : Z) :
  hexDigit c = Some d -> (0 <= d <= 15)%Z.
Proof.
  unfold hexDigit. set (n := Z.of_N (N_of_ascii c)).
  destruct ((48 <=? n) && (n <=? 57))%Z eqn:H1;
    [intros [= <-]; lia |].
  destruct ((97 <=? n) && (n <=? 102))%Z eqn:H2;
    [intros [= <-]; lia |].
  destruct ((65 <=? n) && (n <=? 70))%Z eqn:H3;
    [intros [= <-]; lia | discriminate].
Qed.

Lemma parseHexPair_range (c1 c2 : ascii) (n : Z) :
  parseHexPair c1 c2 = Some n -> (0 <= n <= 255)%Z.
Proof.
  unfold parseHexPair.
  destruct (hexDigit c1) as [hi |] eqn:H1; [| discriminate].
  destruct (hexDigit c2) as [lo |] eqn:H2; [| discriminate].
  intros [= <-]. apply hexDigit_range in H1, H2. lia.
Qed.

Lemma stripHash_cases (hex : string) :
  stripHash hex = hex \/ hex = String "#"%char (stripHash hex).
Proof.
  destruct hex as [| c rest]; [left; reflexivity |].
  destruct c as [[] [] [] [] [] [] [] []];
    solve [left; reflexivity | right; reflexivity].
Qed.

Lemma execHex_six (hex : string) (v : Z * Z * Z) :
  execHex hex = Some v -> String.length (stripHash hex) = 6%nat.
Proof.
  unfold execHex.
  destruct (stripHash hex) as [| c1 [| c2 [| c3 [| c4 [| c5 [| c6 [| c7 s]]]]]]];
    try discriminate. reflexivity.
Qed.

Lemma execHex_range (hex : string) (r g b : Z) :
  execHex hex = Some (r, g, b) ->
  (0 <= r <= 255)%Z /\ (0 <= g <= 255)%Z /\ (0 <= b <= 255)%Z.
Proof.
  unfold execHex.
  destruct (stripHash hex) as [| c1 [| c2 [| c3 [| c4 [| c5 [| c6 [| c7 s]]]]]]];
    try discriminate.
  destruct (parseHexPair c1 c2) as [r' |] eqn:Hr; [| discriminate].
  destruct (parseHexPair c3 c4) as [g' |] eqn:Hg; [| discriminate].
  destruct (parseHexPair c5 c6) as [b' |] eqn:Hb; [| discriminate].
  intros [= <- <- <-]. apply parseHexPair_range in Hr, Hg, Hb. lia.
Qed.

(** X21. [hexToRgb] never fails and never produces a component outside
    0..255; a text that is neither six characters long nor seven with a
    leading [#] (such as the three-digit shorthand) gives white. *)
Theorem hexToRgb_total_and_bounded (hex : string) :
  let c := hexToRgb hex in
  (0 <= Rgb.r c <= 255)%Z /\ (0 <= Rgb.g c <= 255)%Z /\ (0 <= Rgb.b c <= 255)%Z
  /\ (String.length hex <> 6%nat ->
      ~ (String.length hex = 7%nat /\ exists rest, hex = String "#"%char rest) ->
      c = Rgb.mk 255 255 255).
Proof.
  intros c. subst c. unfold hexToRgb.
  destruct (execHex hex) as [[[r g] b] |] eqn:Hex.
  - pose proof (execHex_six hex _ Hex) as Hlen.
    destruct (execHex_range hex r g b Hex) as (Hr & Hg & Hb). simpl.
    repeat split; try lia.
    intros H6 H7. exfalso.
    destruct (stripHash_cases hex) as [Heq | Heq].
    + apply H6. now rewrite <- Heq.
    + apply H7. split; [| eauto]. rewrite Heq. simpl. now rewrite Hlen.
  - simpl. repeat split; lia.
Qed.

Lemma hexDigit_hexChar (d : Z) :
  (0 <= d < 16)%Z ->
  hexDigit (hexChar d) = Some d /\ hexChar d <> "#"%char.
Proof.
  intros Hd.
  assert (Hcases : (d = 0 \/ d = 1 \/ d = 2 \/ d = 3 \/ d = 4 \/ d = 5
                    \/ d = 6 \/ d = 7 \/ d = 8 \/ d = 9 \/ d = 10 \/ d = 11
                    \/ d = 12 \/ d = 13 \/ d = 14 \/ d = 15)%Z) by lia.
  repeat (destruct Hcases as [-> | Hcases]; [split; [reflexivity | discriminate] |]).
  subst d. split; [reflexivity | discriminate].
Qed.

Lemma parseHexPair_hexPair (n : Z) :
  (0 <= n <= 255)%Z ->
  exists c1 c2,
    hexPair n = String c1 (String c2 EmptyString)
    /\ parseHexPair c1 c2 = Some n /\ c1 <> "#"%char.
Proof.
  intros Hn. exists (hexChar (n / 16)), (hexChar (n mod 16)).
  split; [reflexivity |].
  assert (Hhi : (0 <= n / 16 < 16)%Z)
    by (split; [apply Z.div_pos | apply Z.div_lt_upper_bound]; lia).
  assert (Hlo : (0 <= n mod 16 < 16)%Z) by (apply Z.mod_pos_bound; lia).
  destruct (hexDigit_hexChar _ Hhi) as [H1 Hne].
  destruct (hexDigit_hexChar _ Hlo) as [H2 _].
  split; [| exact Hne].
  unfold parseHexPair. rewrite H1, H2. f_equal.
  pose proof (Z.div_mod n 16 ltac:(lia)). lia.
Qed.

Lemma stripHash_other (c : ascii) (s : string) :
  c <> "#"%char -> stripHash (String c s) = String c s.
Proof.
  intros Hne. destruct c as [[] [] [] [] [] [] [] []]; try reflexivity.
  now contradiction Hne.
Qed.

(** X22. Every colour is recovered from its spelling: for components
    within 0..255, [hexToRgb] of the six-digit hex spelling of (r, g, b)
    gives back r, g and b, with or without the leading [#]. *)
Theorem hexToRgb_of_spelling (r g b : Z) :
  (0 <= r <= 255)%Z -> (0 <= g <= 255)%Z -> (0 <= b <= 255)%Z ->
  let digits := (hexPair r ++ hexPair g ++ hexPair b)%string in
  hexToRgb digits = Rgb.mk r g b
  /\ hexToRgb (String "#"%char digits) = Rgb.mk r g b.
Proof.
  intros Hr Hg Hb digits. subst digits.
  destruct (parseHexPair_hexPair r Hr) as (c1 & c2 & -> & H1 & Hne).
  destruct (parseHexPair_hexPair g Hg) as (c3 & c4 & -> & H2 & _).
  destruct (parseHexPair_hexPair b Hb) as (c5 & c6 & -> & H3 & _).
  change (String c1 (String c2 EmptyString)
          +:+ String c3 (String c4 EmptyString)
          +:+ String c5 (String c6 EmptyString))%string
    with (String c1 (String c2 (String c3 (String c4 (String c5
            (String c6 EmptyString)))))).
  split; unfold hexToRgb, execHex.
  - rewrite stripHash_other by exact Hne. now rewrite H1, H2, H3.
  - cbn [stripHash]. now rewrite H1, H2, H3.
Qed.

Lemma hexToRgb_of_spelling_witness :
  let digits := (hexPair 255 ++ hexPair 107 ++ hexPair 107)%string in
  hexToRgb digits = Rgb.mk 255 107 107
  /\ hexToRgb (String "#"%char digits) = Rgb.mk 255 107 107.
Proof. apply (hexToRgb_of_spelling 255 107 107); lia. Defined.

(** ** More on the registry and the trail *)

(** X23. Every plane is stored under its own id: this holds for the empty
    registry and is kept by every pass of [animate] and every response
    handled by [fetchFlightData], so the element [plane-<id>] looked up by
    key is the element labelled from the state's id. *)
Theorem registry_keyed_by_id o b w :
  keyedById (planes initialEngine)
  /\ (forall (t : num) e,
        keyedById (planes e) -> keyedById (planes (animate b w t e)))
  /\ (forall r e,
        keyedById (planes e) -> keyedById (planes (fetchFlightData o b w r e))).
Proof.
  unfold keyedById. split; [apply map_Forall_empty |]. split.
  - intros t e. apply animate_invariant. intros i s <-.
    now destruct (advance_trajectory b w t s) as [-> _].
  - intros r e. apply fetchFlightData_invariant.
    + intros i c k s <-. reflexivity.
    + intros e' pd pos. unfold newPlane.
      now destruct (generateCurveControl _ _ _ _ _ _ _).
Qed.

(** X24. Until 60% of the journey the trail reaches back to the start
    point of the plane, and at completion it has shrunk to the exit point:
    the faded end of the stroke is the projection of the start for a stored
    progress of at most 0.6 and the projection of the exit for a stored
    progress of 1. *)
Theorem trail_from_start_to_nothing b w (s : Plane.state) (p la lo ela elo : R) :
  finitePath s la lo ela elo -> Plane.progress s = #p ->
  ((p <= 0.6)%R -> gradFrom (trailOf b w s) = latLonToScreen b w #la #lo)
  /\ (p = 1%R -> gradFrom (trailOf b w s) = latLonToScreen b w #ela #elo).
Proof.
  intros Hfp Hp.
  destruct (trailOf_span b w s p Hp) as (_ & Hfrom & _). rewrite Hfrom.
  split.
  - intros Hle. rewrite trailStartProgress_low by exact Hle.
    now rewrite (pathAt_start s la lo ela elo Hfp).
  - intros ->. rewrite trailStartProgress_high by lra.
    replace ((1 - 0.6) / 0.4 * 1)%R with 1%R by lra.
    now rewrite (pathAt_end s la lo ela elo Hfp).
Qed.

Lemma trail_from_start_to_nothing_witness :
  ((0 <= 0.6)%R ->
   gradFrom (trailOf demoBounds demoWindow demoPlane)
   = latLonToScreen demoBounds demoWindow #51.5 #0)
  /\ (0%R = 1%R ->
      gradFrom (trailOf demoBounds demoWindow demoPlane)
      = latLonToScreen demoBounds demoWindow #51.5 #1).
Proof.
  apply (trail_from_start_to_nothing demoBounds demoWindow demoPlane
           0 51.5 0 51.5 1).
  - exact demoPlane_finitePath.
  - reflexivity.
Defined.

Lemma atan2_origin (u v : R) : atan2 #(u - u) #(v - v) = #0.
Proof.
  replace (u - u)%R with 0%R by ring. replace (v - v)%R with 0%R by ring.
  unfold atan2. now rewrite sgn_zero.
Qed.

(** X25. In the pass that completes a curved journey the tangent sample is
    clamped onto the plane itself, so the stored heading is 0 (north),
    whatever the direction of the path at its end. *)
Theorem curved_heading_at_completion b w (t : num) (s : Plane.state)
    (la lo ela elo : R) :
  finitePath s la lo ela elo -> Plane.curveControl s <> None ->
  progressAt t s = #1 ->
  Plane.heading (advance b w t s) = #0.
Proof.
  intros Hfp Hcc Hp. unfold advance, linear. rewrite Hp.
  assert (Hnext : min (#1 + #0.01) #1 = #1).
  { rewrite add_fin, min_fin. f_equal. apply Rmin_right. lra. }
  rewrite Hnext, (pathAt_end s la lo ela elo Hfp).
  destruct (Plane.curveControl s) as [cp |]; [| contradiction].
  destruct (_ || _); cbn [Plane.heading Plane.setMotion lat lon];
    rewrite !sub_fin, atan2_origin;
    unfold PI; fin_eval.
  all: try (rewrite div_fin by (pose proof PI_RGT_0; lra)).
  all: f_equal; field; pose proof PI_RGT_0; lra.
Qed.

Lemma curved_heading_at_completion_witness :
  Plane.heading (advance demoBounds demoWindow #1000 demoCurved) = #0.
Proof.
  apply (curved_heading_at_completion demoBounds demoWindow #1000 demoCurved
           51.5 0 51.5 1).
  - constructor; try reflexivity. simpl. split; exact I.
  - discriminate.
  - rewrite (progressAt_fin demoCurved 1000 0 1000) by (reflexivity || lra).
    f_equal. apply Rmin_right. lra.
Defined.
